(** * users-rest-api: the Express routers, the Mongoose schemas and the server

    A shallow embedding of
      - [models/User.js] and [models/groups.js]  (the two schemas),
      - [routes/users.js] and the groups router    (five handlers each),
      - [server.js]                                (mounting and dispatch),
    together with an executable model of the part of the Mongoose / MongoDB
    contract those files call into: strict-mode construction, document and
    update validators, [ObjectId] casting, the unique index and the five
    model operations [save], [find], [findById], [findByIdAndUpdate] and
    [findByIdAndDelete].

    Modelling conventions.
      - A [string] is the sequence of UTF-16 code units of a JavaScript string
        whose code units are all below 256, so [String.length] is [.length].
      - A request body is a JSON object whose members are strings; it is a
        [gmap string string].  Members the schema does not declare are
        dropped by strict mode; a body is taken not to set [_id] or [__v].
      - A collection is a [gmap] from [ObjectId] to the stored fields, so
        [_id] is unique by construction; [new Model(body)] picks an
        identifier that no stored document has.
      - Every handler awaits exactly one model operation; a rejected
        operation leaves the collection as it was.
      - Every operation takes the state of the connection, [Up] or [Down]:
        with [Down] the call into the storage layer rejects with a fault of
        the driver.  The contract of the handlers is stated with [Up]; what
        they do with a fault is stated separately. *)

From Stdlib Require Import Ascii.
From stdpp Require Import gmap strings list fin_maps pretty.

Local Open Scope string_scope.

(** ** Regular expressions (for the [match] validator) *)

Module RegExp.

Inductive t : Type :=
| Void                               (* matches nothing *)
| Eps                                (* the empty word *)
| Class (p : Ascii.ascii → bool)           (* one code unit satisfying [p] *)
| Cat (r1 r2 : t)
| Alt (r1 r2 : t)
| Star (r : t).

Definition Plus (r : t) : t := Cat r (Star r).
Definition Chr (c : Ascii.ascii) : t := Class (Ascii.eqb c).
Definition Any : t := Class (λ _, true).

Fixpoint nullable (r : t) : bool :=
  match r with
  | Void => false
  | Eps => true
  | Class _ => false
  | Cat r1 r2 => nullable r1 && nullable r2
  | Alt r1 r2 => nullable r1 || nullable r2
  | Star _ => true
  end.

Definition is_void (r : t) : bool :=
  match r with Void => true | _ => false end.

Definition cat (r1 r2 : t) : t :=
  if is_void r1 || is_void r2 then Void else Cat r1 r2.

Definition alt (r1 r2 : t) : t :=
  if is_void r1 then r2 else if is_void r2 then r1 else Alt r1 r2.

(** Brzozowski derivative of [r] by the code unit [c]. *)
Fixpoint deriv (c : Ascii.ascii) (r : t) : t :=
  match r with
  | Void => Void
  | Eps => Void
  | Class p => if p c then Eps else Void
  | Cat r1 r2 =>
      if nullable r1
      then alt (cat (deriv c r1) r2) (deriv c r2)
      else cat (deriv c r1) r2
  | Alt r1 r2 => alt (deriv c r1) (deriv c r2)
  | Star r1 => cat (deriv c r1) (Star r1)
  end.

(** The whole of [s] is in the language of [r]. *)
Fixpoint accepts (r : t) (s : string) : bool :=
  match s with
  | EmptyString => nullable r
  | String c s' => accepts (deriv c r) s'
  end.

(** [r.test(s)] for a pattern without anchors: some substring matches. *)
Definition test (r : t) (s : string) : bool :=
  accepts (Cat (Star Any) (Cat r (Star Any))) s.

(** [\s] on code units below 256: TAB, LF, VT, FF, CR, SPACE, NBSP. *)
Definition is_space (c : Ascii.ascii) : bool :=
  let n := Ascii.nat_of_ascii c in
  (Nat.leb 9 n && Nat.leb n 13) || Nat.eqb n 32 || Nat.eqb n 160.

(** [\S] *)
Definition NonSpace : t := Class (λ c, negb (is_space c)).

End RegExp.

(** ** Schemas *)

(** The options a path of the two schemas is declared with.  [required] and
    [match_] carry the custom message of the [[value, message]] form. *)
Record SchemaType : Type := {
  required : option string;
  minlength : option nat;
  maxlength : option nat;
  match_ : option (RegExp.t * string);
  unique : bool
}.

Abbreviation Schema := (list (string * SchemaType)).

(** [/\S+@\S+\.\S+/] *)
Definition emailPattern : RegExp.t :=
  RegExp.Cat (RegExp.Plus RegExp.NonSpace)
    (RegExp.Cat (RegExp.Chr "@"%char)
       (RegExp.Cat (RegExp.Plus RegExp.NonSpace)
          (RegExp.Cat (RegExp.Chr "."%char) (RegExp.Plus RegExp.NonSpace)))).

(** models/User.js *)
Definition userSchema : Schema :=
  [ ("username",
      {| required := Some "Username required";
         minlength := Some 3; maxlength := Some 50;
         match_ := None; unique := false |});
    ("email",
      {| required := Some "Email required";
         minlength := None; maxlength := None;
         match_ := Some (emailPattern, "Email invalid"); unique := true |});
    ("password",
      {| required := Some "Password required";
         minlength := Some 6; maxlength := None;
         match_ := None; unique := false |}) ].

(** models/groups.js *)
Definition groupchema : Schema :=
  [ ("groupname",
      {| required := Some "Group name required";
         minlength := Some 3; maxlength := Some 50;
         match_ := None; unique := false |}) ].

(** ** Validators *)

(** The [required] check of a String path: a string of positive length. *)
Definition checkRequired (v : option string) : bool :=
  match v with
  | Some s => negb (Nat.eqb (String.length s) 0)
  | None => false
  end.

Definition minlengthMessage (path value : string) (n : nat) : string :=
  "Path `" +:+ path +:+ "` (`" +:+ value +:+
  "`) is shorter than the minimum allowed length (" +:+ pretty n +:+ ").".

Definition maxlengthMessage (path value : string) (n : nat) : string :=
  "Path `" +:+ path +:+ "` (`" +:+ value +:+
  "`) is longer than the maximum allowed length (" +:+ pretty n +:+ ").".

(** The declared validators other than [required], on a value that is set:
    [minlength], then [maxlength], then [match]; the first one that fails
    gives the path's error.  The [match] validator lets the empty string
    through. *)
Definition validateString (path : string) (st : SchemaType) (s : string)
  : option string :=
  match minlength st with
  | Some n =>
      if Nat.ltb (String.length s) n then Some (minlengthMessage path s n)
      else None
  | None => None
  end ∪
  match maxlength st with
  | Some n =>
      if Nat.ltb n (String.length s) then Some (maxlengthMessage path s n)
      else None
  | None => None
  end ∪
  match match_ st with
  | Some (re, msg) =>
      if Nat.eqb (String.length s) 0 || RegExp.test re s then None
      else Some msg
  | None => None
  end.

(** [SchemaType.doValidate]: [required] runs first; the other validators are
    skipped on a value that is not set. *)
Definition doValidate (path : string) (st : SchemaType) (v : option string)
  : option string :=
  match required st with
  | Some msg => if checkRequired v then None else Some msg
  | None => None
  end ∪
  match v with
  | Some s => validateString path st s
  | None => None
  end.

(** ** Identifiers, documents, errors *)

(** An [ObjectId] is the number its twelve bytes spell. *)
Abbreviation ObjectId := N.

Definition hexDigit (c : Ascii.ascii) : option N :=
  let n := N_of_ascii c in
  if (48 <=? n)%N && (n <=? 57)%N then Some (n - 48)%N
  else if (97 <=? n)%N && (n <=? 102)%N then Some (n - 87)%N
  else if (65 <=? n)%N && (n <=? 70)%N then Some (n - 55)%N
  else None.

Fixpoint hexValue (acc : N) (s : string) : option N :=
  match s with
  | EmptyString => Some acc
  | String c s' =>
      match hexDigit c with
      | Some d => hexValue (16 * acc + d)%N s'
      | None => None
      end
  end.

(** Casting a route parameter to an [ObjectId]: a string of 24 hexadecimal
    digits; anything else is a [CastError]. *)
Definition castObjectId (id : string) : option ObjectId :=
  if Nat.eqb (String.length id) 24 then hexValue 0%N id else None.

(** The fields a document stores, by path. *)
Abbreviation Fields := (gmap string string).

(** A document as the model hands it to the handler: [_id] and fields. *)
Record Document : Type := { _id : ObjectId; fields : Fields }.

(** A collection: the stored fields under each [_id]. *)
Abbreviation Collection := (gmap N (gmap string string)).

(** What a model operation rejects with. *)
Inductive MongooseError : Type :=
| ValidationError (prefix : string) (errors : list (string * string))
| CastError (value : string)
| DuplicateKey (path : string) (key : option string)
| DriverFault (reason : string).

Definition dquote : string := String (ascii_of_nat 34) EmptyString.

Fixpoint joinErrors (errors : list (string * string)) : string :=
  match errors with
  | [] => EmptyString
  | [(p, m)] => p +:+ ": " +:+ m
  | (p, m) :: rest => p +:+ ": " +:+ m +:+ ", " +:+ joinErrors rest
  end.

(** [err.message] *)
Definition message (err : MongooseError) : string :=
  match err with
  | ValidationError prefix errors => prefix +:+ ": " +:+ joinErrors errors
  | CastError value =>
      "Cast to ObjectId failed for value " +:+ dquote +:+ value +:+ dquote
      +:+ " at path " +:+ dquote +:+ "_id" +:+ dquote
  | DuplicateKey path key =>
      "E11000 duplicate key error index: " +:+ path +:+ "_1 dup key: { "
      +:+ path +:+ ": " +:+ dquote +:+ default "null" key +:+ dquote +:+ " }"
  | DriverFault reason => reason
  end.

(** An awaited model operation either fulfils with a value or rejects. *)
Inductive Completion (A : Type) : Type :=
| Fulfilled (a : A)
| Rejected (err : MongooseError).
Arguments Fulfilled {A} a.
Arguments Rejected {A} err.

(** The connection during one request: the driver answers, or the operation
    fails in the storage layer for a reason of its own. *)
Inductive Driver : Type :=
| Up
| Down (reason : string).

(** ** Responses *)

Inductive Json : Type :=
| JDoc (doc : Document)              (* res.json(user) *)
| JDocs (docs : list Document)       (* res.json(users) *)
| JError (error : string)            (* { error: ... } *)
| JMsg (msg : string)                (* { msg: ... } *)
| JText (text : string).             (* res.send(text) *)

(** What a request ends in: a response, or a rejection nothing caught. *)
Inductive Outcome : Type :=
| Responded (status : nat) (body : Json)
| Unhandled (err : MongooseError).

(** ** The model operations of one resource *)

Section Model.

(** [mongoose.model(modelName, schema)] *)
Variable modelName : string.
Variable schema : Schema.

(** The messages the resource's router answers with. *)
Variable notFound : string.
Variable invalidId : string.

Definition paths : list string := schema.*1.

(** Strict mode: members of the body the schema does not declare are not
    set on the document (or on the update). *)
Definition strict (body : Fields) : Fields :=
  filter (λ kv, kv.1 ∈ paths) body.

(** Document validation: every declared path is validated on the value
    the document has there, set or not. *)
Definition validateDocument (f : Fields) : list (string * string) :=
  omap (λ e, pair e.1 <$> doValidate e.1 e.2 (f !! e.1)) schema.

(** Update validators ([runValidators: true]): only the paths the update
    sets are validated, each on the value it is set to. *)
Definition validateUpdate (upd : Fields) : list (string * string) :=
  omap (λ e, match upd !! e.1 with
             | Some v => pair e.1 <$> doValidate e.1 e.2 (Some v)
             | None => None
             end) schema.

(** The paths declared [unique: true]: each has a unique index. *)
Definition uniquePaths : list string :=
  (filter (λ e, unique e.2 = true) schema).*1.

(** Some stored document has the index key [k] at path [p]. *)
Definition keyTaken (c : Collection) (p : string) (k : option string)
  : bool :=
  bool_decide (map_Exists (λ _ d, d !! p = k) c).

(** [new Model(body)]: a document with an identifier no stored document
    has, and the declared members of the body. *)
Definition newObjectId (c : Collection) : ObjectId := fresh (dom c).

Definition new (body : Fields) (c : Collection) : Document :=
  {| _id := newObjectId c; fields := strict body |}.

(** [doc.save()]: validation, then the insert, which the [_id] index and
    the unique indexes may refuse. *)
Definition save (drv : Driver) (doc : Document) (c : Collection)
  : Completion Collection :=
  match validateDocument (fields doc) with
  | (_ :: _) as errors =>
      Rejected (ValidationError (modelName +:+ " validation failed") errors)
  | [] =>
      match drv with
      | Down reason => Rejected (DriverFault reason)
      | Up =>
          match c !! _id doc with
          | Some _ => Rejected (DuplicateKey "_id" (Some (pretty (_id doc))))
          | None =>
              match List.find (λ p, keyTaken c p (fields doc !! p))
                      uniquePaths with
              | Some p => Rejected (DuplicateKey p (fields doc !! p))
              | None => Fulfilled (<[_id doc := fields doc]> c)
              end
          end
      end
  end.

(** [Model.find()] *)
Definition find (drv : Driver) (c : Collection)
  : Completion (list Document) :=
  match drv with
  | Down reason => Rejected (DriverFault reason)
  | Up => Fulfilled ((λ kv, {| _id := kv.1; fields := kv.2 |})
                       <$> map_to_list c)
  end.

(** [Model.findById(id)]: [null] is [None]. *)
Definition findById (drv : Driver) (id : string) (c : Collection)
  : Completion (option Document) :=
  match castObjectId id with
  | None => Rejected (CastError id)
  | Some i =>
      match drv with
      | Down reason => Rejected (DriverFault reason)
      | Up => Fulfilled ((λ f, {| _id := i; fields := f |}) <$> c !! i)
      end
  end.

(** [Model.findByIdAndUpdate(id, update, { new: true, runValidators: true })]:
    the filter is cast, the update validators run, and then the storage
    layer sets the update's paths on the document it finds; a unique index
    refuses a key that changes to one another document has.  The document
    after the update is returned, with the collection that holds it. *)
Definition findByIdAndUpdate (drv : Driver) (id : string) (update : Fields)
    (c : Collection) : Completion (option Document * Collection) :=
  match castObjectId id with
  | None => Rejected (CastError id)
  | Some i =>
      let upd := strict update in
      match validateUpdate upd with
      | (_ :: _) as errors =>
          Rejected (ValidationError "Validation failed" errors)
      | [] =>
          match drv with
          | Down reason => Rejected (DriverFault reason)
          | Up =>
              match c !! i with
              | None => Fulfilled (None, c)
              | Some f =>
                  let f' := upd ∪ f in
                  match List.find
                          (λ p, bool_decide (f' !! p ≠ f !! p)
                                && keyTaken c p (f' !! p))
                          uniquePaths with
                  | Some p => Rejected (DuplicateKey p (f' !! p))
                  | None =>
                      Fulfilled (Some {| _id := i; fields := f' |},
                                 <[i := f']> c)
                  end
              end
          end
      end
  end.

(** [Model.findByIdAndDelete(id)]: the document that was removed. *)
Definition findByIdAndDelete (drv : Driver) (id : string) (c : Collection)
  : Completion (option Document * Collection) :=
  match castObjectId id with
  | None => Rejected (CastError id)
  | Some i =>
      match drv with
      | Down reason => Rejected (DriverFault reason)
      | Up =>
          Fulfilled ((λ f, {| _id := i; fields := f |}) <$> c !! i,
                     delete i c)
      end
  end.

(** ** The router of the resource

    Each handler is the source's, with [await] as a [match] on the
    completion: the [Rejected] branch is the [catch] block where the
    handler has one, and an unhandled rejection where it has none. *)

(** [router.post('/')] *)
Definition post (drv : Driver) (body : Fields) (c : Collection)
  : Outcome * Collection :=
  let user := new body c in
  match save drv user c with
  | Fulfilled c' => (Responded 201 (JDoc user), c')
  | Rejected err => (Responded 400 (JError (message err)), c)
  end.

(** [router.get('/')]: no [try]. *)
Definition getAll (drv : Driver) (c : Collection) : Outcome * Collection :=
  match find drv c with
  | Fulfilled users => (Responded 200 (JDocs users), c)
  | Rejected err => (Unhandled err, c)
  end.

(** [router.get('/:id')] *)
Definition get (drv : Driver) (id : string) (c : Collection)
  : Outcome * Collection :=
  match findById drv id c with
  | Fulfilled None => (Responded 404 (JError notFound), c)
  | Fulfilled (Some user) => (Responded 200 (JDoc user), c)
  | Rejected err => (Responded 400 (JError invalidId), c)
  end.

(** [router.put('/:id')] *)
Definition put (drv : Driver) (id : string) (body : Fields) (c : Collection)
  : Outcome * Collection :=
  match findByIdAndUpdate drv id body c with
  | Fulfilled (None, c') => (Responded 404 (JError notFound), c')
  | Fulfilled (Some user, c') => (Responded 200 (JDoc user), c')
  | Rejected err => (Responded 400 (JError (message err)), c)
  end.

(** [router.delete('/:id')] *)
Definition delete_ (drv : Driver) (id : string) (c : Collection)
  : Outcome * Collection :=
  match findByIdAndDelete drv id c with
  | Fulfilled (None, c') => (Responded 404 (JError notFound), c')
  | Fulfilled (Some _, c') =>
      (Responded 200 (JMsg "Deleted successfully"), c')
  | Rejected err => (Responded 400 (JError invalidId), c)
  end.

(** A request to the router, and the handler it runs. *)
Inductive Request : Type :=
| Create (body : Fields)
| ReadAll
| ReadOne (id : string)
| Update (id : string) (body : Fields)
| Delete (id : string).

Definition handle (drv : Driver) (req : Request) (c : Collection)
  : Outcome * Collection :=
  match req with
  | Create body => post drv body c
  | ReadAll => getAll drv c
  | ReadOne id => get drv id c
  | Update id body => put drv id body c
  | Delete id => delete_ drv id c
  end.

(** The collections the service can be in: it starts empty and changes
    only through the handlers. *)
Inductive reachable : Collection → Prop :=
| reachable_empty : reachable ∅
| reachable_handle drv req c :
    reachable c → reachable (handle drv req c).2.

End Model.

(** ** The two resources *)

(** routes/users.js over [mongoose.model('User', userSchema)] *)
Module Users.
Definition modelName : string := "User".
Definition notFound : string := "User not found".
Definition invalidId : string := "Invalid user ID".
Definition handle : Driver → Request → Collection → Outcome * Collection :=
  handle modelName userSchema notFound invalidId.
Definition post := post modelName userSchema.
Definition getAll := getAll.
Definition get := get notFound invalidId.
Definition put := put userSchema notFound.
Definition delete_ := delete_ notFound invalidId.
Definition reachable : Collection → Prop :=
  reachable modelName userSchema notFound invalidId.
End Users.

(** The groups router over [mongoose.model('groups', groupchema)] *)
Module Groups.
Definition modelName : string := "groups".
Definition notFound : string := "Group not found".
Definition invalidId : string := "Invalid group ID".
Definition handle : Driver → Request → Collection → Outcome * Collection :=
  handle modelName groupchema notFound invalidId.
Definition post := post modelName groupchema.
Definition getAll := getAll.
Definition get := get notFound invalidId.
Definition put := put groupchema notFound.
Definition delete_ := delete_ notFound invalidId.
End Groups.

(** ** The server *)

Inductive Method : Type := GET | POST | PUT | DELETE.

Global Instance Method_eq_dec : EqDecision Method.
Proof. solve_decision. Defined.

(** The two path patterns the routers register: ['/'] and ['/:id']. *)
Inductive RoutePath : Type := Root | Param.

(** The handler a route is registered with. *)
Inductive Action : Type := ACreate | AReadAll | AReadOne | AUpdate | ADelete.

Inductive Resource : Type := UsersResource | GroupsResource.

Record Router : Type := {
  resource : Resource;
  routes : list (Method * RoutePath * Action)
}.

(** Both router files register the same five routes, in this order. *)
Definition crudRoutes : list (Method * RoutePath * Action) :=
  [ (POST, Root, ACreate);
    (GET, Root, AReadAll);
    (GET, Param, AReadOne);
    (PUT, Param, AUpdate);
    (DELETE, Param, ADelete) ].

Definition usersRouter : Router :=
  {| resource := UsersResource; routes := crudRoutes |}.

Definition groupsRouter : Router :=
  {| resource := GroupsResource; routes := crudRoutes |}.

(** An HTTP request: the method, the segments of the path and the parsed
    JSON body. *)
Record HttpRequest : Type := {
  method : Method;
  url : list string;
  body : Fields
}.

(** A pattern against what is left of the path below the mount point;
    ['/:id'] binds one segment. *)
Definition matchPath (p : RoutePath) (rest : list string)
  : option (option string) :=
  match p, rest with
  | Root, [] => Some None
  | Param, [id] => Some (Some id)
  | _, _ => None
  end.

Definition toRequest (a : Action) (param : option string) (b : Fields)
  : option Request :=
  match a, param with
  | ACreate, None => Some (Create b)
  | AReadAll, None => Some ReadAll
  | AReadOne, Some id => Some (ReadOne id)
  | AUpdate, Some id => Some (Update id b)
  | ADelete, Some id => Some (Delete id)
  | _, _ => None
  end.

(** The first route of the router with the request's method whose pattern
    matches. *)
Fixpoint route (rs : list (Method * RoutePath * Action)) (m : Method)
    (rest : list string) (b : Fields) : option Request :=
  match rs with
  | [] => None
  | (m', p, a) :: rs' =>
      if decide (m' = m) then
        match matchPath p rest with
        | Some param => toRequest a param b
        | None => route rs' m rest b
        end
      else route rs' m rest b
  end.

(** What [app.use(prefix, router)] calls have mounted, in order. *)
Abbreviation Mounts := (list (string * Router)).

(** server.js: [app.use('/users', userRoutes)] is the only mount. *)
Definition server : Mounts := [ ("users", usersRouter) ].

(** Where a request ends up. *)
Inductive Target : Type :=
| Liveness                                   (* app.get('/') *)
| ToHandler (r : Resource) (req : Request)
| NoRoute.                                   (* Express answers 404 *)

Fixpoint dispatchMounts (ms : Mounts) (m : Method) (seg : string)
    (rest : list string) (b : Fields) : Target :=
  match ms with
  | [] => NoRoute
  | (prefix, r) :: ms' =>
      if decide (prefix = seg) then
        match route (routes r) m rest b with
        | Some req => ToHandler (resource r) req
        | None => dispatchMounts ms' m seg rest b
        end
      else dispatchMounts ms' m seg rest b
  end.

Definition dispatch (ms : Mounts) (req : HttpRequest) : Target :=
  match url req with
  | [] => if decide (method req = GET) then Liveness else NoRoute
  | seg :: rest => dispatchMounts ms (method req) seg rest (body req)
  end.

Definition methodName (m : Method) : string :=
  match m with
  | GET => "GET" | POST => "POST" | PUT => "PUT" | DELETE => "DELETE"
  end.

Fixpoint pathName (segments : list string) : string :=
  match segments with
  | [] => "/"
  | [seg] => "/" +:+ seg
  | seg :: rest => "/" +:+ seg +:+ pathName rest
  end.

(** The database: one collection per model. *)
Record Db : Type := { users : Collection; groups : Collection }.

(** A handler's result, put back into the database. *)
Definition inUsers (db : Db) (r : Outcome * Collection) : Outcome * Db :=
  (r.1, {| users := r.2; groups := groups db |}).

Definition inGroups (db : Db) (r : Outcome * Collection) : Outcome * Db :=
  (r.1, {| users := users db; groups := r.2 |}).

Definition serve (ms : Mounts) (drv : Driver) (req : HttpRequest) (db : Db)
  : Outcome * Db :=
  match dispatch ms req with
  | Liveness => (Responded 200 (JText "API is running"), db)
  | ToHandler UsersResource r => inUsers db (Users.handle drv r (users db))
  | ToHandler GroupsResource r => inGroups db (Groups.handle drv r (groups db))
  | NoRoute =>
      (Responded 404
         (JText ("Cannot " +:+ methodName (method req) +:+ " "
                 +:+ pathName (url req))),
       db)
  end.

(** ** The contract's side conditions and the sample data *)

(** The field rules of Create: username set with length 3 to 50, email set,
    matching the pattern and stored by no document, password set with
    length at least 6. *)
Definition fieldRules (c : Collection) (b : Fields) : Prop :=
  (∃ u, b !! "username" = Some u
        ∧ (3 ≤ String.length u)%nat ∧ (String.length u ≤ 50)%nat)
  ∧ (∃ e, b !! "email" = Some e ∧ RegExp.test emailPattern e = true
          ∧ ∀ i d, c !! i = Some d → d !! "email" ≠ Some e)
  ∧ (∃ p, b !! "password" = Some p ∧ (6 ≤ String.length p)%nat).

(** The body of the README's example request. *)
Definition john : Fields :=
  {[ "username" := "john_doe"; "email" := "john@example.com";
     "password" := "secret123" ]}.


(** The collection after the example request on an empty collection, and
    the identifier its document got, as a route parameter. *)
Definition johnStore : Collection := (Users.post Up john ∅).2.
Definition johnId : string := "000000000000000000000000".

(** Every stored document passes the validators of the schema. *)
Definition validDocs (schema : Schema) (c : Collection) : Prop :=
  ∀ i f, c !! i = Some f → validateDocument schema f = [].

(** No two stored documents have the same key at a unique path. *)
Definition uniqueKeys (schema : Schema) (c : Collection) : Prop :=
  ∀ p, p ∈ uniquePaths schema →
  ∀ i j fi fj, c !! i = Some fi → c !! j = Some fj →
               fi !! p = fj !! p → i = j.

(** Update as the contract words it: merge the supplied fields into the
    stored document, validate the merged document as Create does -- the
    schema's validators, and the unique key against the other documents --
    and store it only when it is valid. *)
Definition mergedValid (schema : Schema) (c : Collection) (i : ObjectId)
    (m : Fields) : Prop :=
  validateDocument schema m = []
  ∧ ∀ p, p ∈ uniquePaths schema →
         ∀ j d, j ≠ i → c !! j = Some d → d !! p ≠ m !! p.

(** What the update validators and the unique indexes let through, for an
    update [b] of a document with fields [f]. *)
Definition updateAccepted (schema : Schema) (c : Collection) (f b : Fields)
  : Prop :=
  validateUpdate schema (strict schema b) = []
  ∧ ∀ p, p ∈ uniquePaths schema →
         (strict schema b ∪ f) !! p = f !! p
         ∨ keyTaken c p ((strict schema b ∪ f) !! p) = false.

(** An empty database. *)
Definition emptyDb : Db := {| users := ∅; groups := ∅ |}.

(** No two stored user documents have the same email. *)
Definition distinctEmails (c : Collection) : Prop :=
  ∀ i j fi fj, c !! i = Some fi → c !! j = Some fj →
               fi !! "email" = fj !! "email" → i = j.

(** ** Further sample data *)

(** The document the example request creates in an empty collection. *)
Definition johnDoc : Document := new userSchema john ∅.

(** A well-formed identifier no document of [johnStore] is stored under,
    and a route parameter that is not an identifier. *)
Definition otherId : string := "000000000000000000000001".
Definition badId : string := "not-an-id".

(** The body of the update in the test of the users router. *)
Definition rename : Fields := {[ "username" := "updateduser" ]}.

(** The collections the groups router can be in. *)
Definition groupsReachable : Collection → Prop :=
  reachable Groups.modelName groupchema Groups.notFound Groups.invalidId.

(** The field rule of a group: groupname set, of length 3 to 50. *)
Definition groupRule (b : Fields) : Prop :=
  ∃ g, b !! "groupname" = Some g
       ∧ (3 ≤ String.length g)%nat ∧ (String.length g ≤ 50)%nat.

(** A body that creates a group. *)
Definition admins : Fields := {[ "groupname" := "admins" ]}.

(** A second user, and the collection after both have been created. *)
Definition jane : Fields :=
  {[ "username" := "jane_doe"; "email" := "jane@example.com";
     "password" := "hunter22" ]}.
Definition twoUsers : Collection := (Users.post Up jane johnStore).2.

(** The groups collection after one Create. *)
Definition adminsStore : Collection := (Groups.post Up admins ∅).2.

(** ** The language of a regular expression *)

(** The words a regular expression denotes. *)
Inductive lang : RegExp.t → string → Prop :=
| lang_eps : lang RegExp.Eps EmptyString
| lang_class p c : p c = true → lang (RegExp.Class p) (String c EmptyString)
| lang_cat r1 r2 s1 s2 :
    lang r1 s1 → lang r2 s2 → lang (RegExp.Cat r1 r2) (s1 +:+ s2)
| lang_alt_l r1 r2 s : lang r1 s → lang (RegExp.Alt r1 r2) s
| lang_alt_r r1 r2 s : lang r2 s → lang (RegExp.Alt r1 r2) s
| lang_star_nil r : lang (RegExp.Star r) EmptyString
| lang_star_cons r s1 s2 :
    lang r s1 → lang (RegExp.Star r) s2 → lang (RegExp.Star r) (s1 +:+ s2).

(** Every code unit of [s] satisfies [p]. *)
Fixpoint allChars (p : Ascii.ascii → bool) (s : string) : bool :=
  match s with
  | EmptyString => true
  | String c s' => p c && allChars p s'
  end.

(** A run [\S+]: one or more code units, none of them white space. *)
Definition nonblank (s : string) : bool :=
  negb (Nat.eqb (String.length s) 0)
  && allChars (λ c, negb (RegExp.is_space c)) s.

(** * The book API of the tutorial

    The controllers, the error middleware and the router of the tutorial's
    book API.  The book schema has dates, numbers and booleans, which the
    string fields above do not cover, so the documents are left abstract:
    each controller takes what its awaited model call gives -- a value or a
    thrown error -- and returns the status and the body it sends.  Numbers
    are integers; the quotient in [Math.ceil(total / limit)] is taken
    exactly, as it is for counts below 2^53. *)

Module Book.

(** A thrown error, by the properties the handlers read. *)
Record Error : Type := {
  name : string;
  message : string;
  code : option N;
  statusCode : option nat;
  errors : list (string * string)      (* path, message of its error *)
}.

(** What [await] gives. *)
Inductive Awaited (T : Type) : Type :=
| Resolved (value : T)
| Threw (err : Error).
Arguments Resolved {T} value.
Arguments Threw {T} err.

(** A message that is a string, or the array of the validators' messages. *)
Inductive Text : Type :=
| Str (s : string)
| Arr (l : list string).

(** The bodies the book API sends; [success] is [true] for [Done] and
    [Listed] and [false] for the others. *)
Inductive Body (A : Type) : Type :=
| Done (message : option string) (data : A)
| Listed (count : nat) (total : N) (page pages : Z) (data : list A)
| Failed (message : string) (error : option string)
| Invalid (errors : list string)       (* message: 'Validation Error' *)
| ErrorBody (error : Text).
Arguments Done {A} message data.
Arguments Listed {A} count total page pages data.
Arguments Failed {A} message error.
Arguments Invalid {A} errors.
Arguments ErrorBody {A} error.

Definition isNamed (err : Error) (n : string) : bool :=
  bool_decide (name err = n).

Definition isDuplicateKey (err : Error) : bool :=
  bool_decide (code err = Some 11000%N).

(** [Object.values(err.errors).map(val => val.message)] *)
Definition messages (err : Error) : list string := (errors err).*2.

(** The [500] branch every controller ends its [catch] with. *)
Definition serverError {A} (err : Error) : nat * Body A :=
  (500, Failed "Server Error" (Some (message err))).

Definition bookNotFound {A} : nat * Body A :=
  (404, Failed "Book not found" None).

(** [getBookById], on the result of [Book.findById(req.params.id)]. *)
Definition getBookById {A} (found : Awaited (option A)) : nat * Body A :=
  match found with
  | Resolved None => bookNotFound
  | Resolved (Some book) => (200, Done None book)
  | Threw error =>
      if isNamed error "CastError" then bookNotFound
      else serverError error
  end.

(** [createBook], on the result of [Book.create(req.body)]. *)
Definition createBook {A} (created : Awaited A) : nat * Body A :=
  match created with
  | Resolved book => (201, Done (Some "Book created successfully") book)
  | Threw error =>
      if isNamed error "ValidationError" then (400, Invalid (messages error))
      else if isDuplicateKey error
      then (400, Failed "Book with this ISBN already exists" None)
      else serverError error
  end.

(** [updateBook], on the result of [Book.findByIdAndUpdate(...)]. *)
Definition updateBook {A} (updated : Awaited (option A)) : nat * Body A :=
  match updated with
  | Resolved None => bookNotFound
  | Resolved (Some book) =>
      (200, Done (Some "Book updated successfully") book)
  | Threw error =>
      if isNamed error "ValidationError" then (400, Invalid (messages error))
      else if isNamed error "CastError" then bookNotFound
      else serverError error
  end.

(** [deleteBook], on the result of [Book.findByIdAndDelete(req.params.id)]. *)
Definition deleteBook {A} (deleted : Awaited (option A)) : nat * Body A :=
  match deleted with
  | Resolved None => bookNotFound
  | Resolved (Some book) =>
      (200, Done (Some "Book deleted successfully") book)
  | Threw error =>
      if isNamed error "CastError" then bookNotFound
      else serverError error
  end.

(** ** middleware/errorHandler.js *)

(** The local [error] object: the message and the status it carries. *)
Record Reply : Type := { replyMessage : Text; replyStatus : option nat }.

(** [x || d] on a status: [undefined] and [0] give the default. *)
Definition statusOr (s : option nat) (d : nat) : nat :=
  match s with
  | Some (S n) => S n
  | _ => d
  end.

(** [x || d] on a message: the empty string gives the default, an array
    never does. *)
Definition textOr (t : Text) (d : string) : Text :=
  match t with
  | Str EmptyString => Str d
  | _ => t
  end.

(** The three [if]s run one after the other, each replacing [error]. *)
Definition errorHandler {A} (err : Error) : nat * Body A :=
  let error := {| replyMessage := Str (message err);
                  replyStatus := statusCode err |} in
  let error :=
    if isNamed err "CastError"
    then {| replyMessage := Str "Resource not found"; replyStatus := Some 404 |}
    else error in
  let error :=
    if isDuplicateKey err
    then {| replyMessage := Str "Duplicate field value entered";
            replyStatus := Some 400 |}
    else error in
  let error :=
    if isNamed err "ValidationError"
    then {| replyMessage := Arr (messages err); replyStatus := Some 400 |}
    else error in
  (statusOr (replyStatus error) 500,
   ErrorBody (textOr (replyMessage error) "Server Error")).

(** ** The paging of [getAllBooks] *)

(** A condition of a filter. *)
#[warnings="-register-all"]
Inductive Condition : Type :=
| Equals (value : string)
| Regex (pattern options : string)
| Nested (filter : list (string * Condition)).

Abbreviation Filter := (list (string * Condition)).












End Book.

(** ** Sample data of the book API *)

(** A cast error, as Mongoose throws it for a malformed identifier. *)
Definition castError : Book.Error :=
  {| Book.name := "CastError";
     Book.message := "Cast to ObjectId failed";
     Book.code := None; Book.statusCode := None; Book.errors := [] |}.



(** * Facts about the model operations *)

Section ModelFacts.

Implicit Types (schema : Schema) (c : Collection) (f upd body : Fields).

Lemma strict_lookup schema body p :
  strict schema body !! p
  = if decide (p ∈ paths schema) then body !! p else None.
Proof.
  unfold strict. destruct (body !! p) as [v|] eqn:Hb.
  - case_decide as Hp.
    + apply map_lookup_filter_Some. done.
    + apply map_lookup_filter_None. right. intros v' Hv' Hin. done.
  - assert (filter (λ kv, kv.1 ∈ paths schema) body !! p = None) as ->.
    { apply map_lookup_filter_None. left. done. }
    by case_decide.
Qed.

Lemma strict_lookup_declared schema body p st :
  (p, st) ∈ schema → strict schema body !! p = body !! p.
Proof.
  intros Hin. rewrite strict_lookup. case_decide as Hp; [done|].
  exfalso. apply Hp. unfold paths. apply list_elem_of_fmap.
  by exists (p, st).
Qed.

Lemma validateDocument_nil schema f :
  validateDocument schema f = []
  ↔ Forall (λ e, doValidate e.1 e.2 (f !! e.1) = None) schema.
Proof.
  unfold validateDocument. induction schema as [|e s IH]; simpl.
  - split; [constructor | done].
  - destruct (doValidate e.1 e.2 (f !! e.1)) as [m|] eqn:He; simpl.
    + split; [done|]. intros H. inversion H; congruence.
    + rewrite IH. split.
      * intros H. by constructor.
      * intros H. by inversion H.
Qed.

Lemma validateUpdate_nil schema upd :
  validateUpdate schema upd = []
  ↔ Forall (λ e, ∀ v, upd !! e.1 = Some v
                      → doValidate e.1 e.2 (Some v) = None) schema.
Proof.
  unfold validateUpdate. induction schema as [|e s IH]; simpl.
  - split; [constructor | done].
  - destruct (upd !! e.1) as [v|] eqn:Hu; simpl.
    + destruct (doValidate e.1 e.2 (Some v)) as [m|] eqn:He; simpl.
      * split; [done|]. intros H. inversion H as [|? ? H1 H2]; subst.
        specialize (H1 v Hu). congruence.
      * rewrite IH. split.
        -- intros H. constructor; [|done]. intros v' Hv'. congruence.
        -- intros H. by inversion H.
    + rewrite IH. split.
      * intros H. constructor; [|done]. intros v' Hv'. congruence.
      * intros H. by inversion H.
Qed.

(** On a document that satisfies the schema, validating the merged
    document and validating the update's paths find the same errors. *)
Lemma validate_merge schema f upd :
  validateDocument schema f = []
  → validateDocument schema (upd ∪ f) = validateUpdate schema upd.
Proof.
  rewrite validateDocument_nil. unfold validateDocument, validateUpdate.
  induction schema as [|e s IH]; [done|].
  intros H. inversion H as [|? ? He Hs]; subst.
  csimpl. rewrite (IH Hs). destruct (upd !! e.1) as [v|] eqn:Hu.
  - by rewrite (lookup_union_Some_l upd f _ v Hu).
  - rewrite lookup_union_r by done. by rewrite He.
Qed.

Lemma keyTaken_true c p k :
  keyTaken c p k = true ↔ ∃ i d, c !! i = Some d ∧ d !! p = k.
Proof.
  unfold keyTaken. rewrite bool_decide_eq_true. apply map_Exists_lookup.
Qed.

Lemma keyTaken_false c p k :
  keyTaken c p k = false ↔ ∀ i d, c !! i = Some d → d !! p ≠ k.
Proof.
  rewrite <- not_true_iff_false, keyTaken_true. split.
  - intros H i d Hi Hk. apply H. eauto.
  - intros H (i & d & Hi & Hk). by apply (H i d).
Qed.

Lemma newObjectId_fresh c : c !! newObjectId c = None.
Proof.
  apply not_elem_of_dom. unfold newObjectId. apply is_fresh.
Qed.

End ModelFacts.

(** ** The user schema, rule by rule *)

Lemma test_nonempty re s :
  RegExp.test re s = true → RegExp.nullable re = false →
  Nat.eqb (String.length s) 0 = false.
Proof.
  destruct s as [|a s]; [|done]. unfold RegExp.test. simpl.
  intros H1 H2. rewrite H2 in H1. done.
Qed.

(** Case analysis on the length tests of the validators. *)
Ltac rule_cases :=
  repeat match goal with
         | |- context [Nat.eqb ?a ?b] => destruct (Nat.eqb_spec a b)
         | |- context [Nat.ltb ?a ?b] => destruct (Nat.ltb_spec a b)
         end;
  simpl; try done; try lia; try (intros _; split; [done | lia]).

(** A document passes the validators of [userSchema] exactly when its
    three fields are set and satisfy the declared rules. *)
Lemma user_valid_iff (f : Fields) :
  validateDocument userSchema f = []
  ↔ (∃ u, f !! "username" = Some u
          ∧ (3 ≤ String.length u)%nat ∧ (String.length u ≤ 50)%nat)
    ∧ (∃ e, f !! "email" = Some e ∧ RegExp.test emailPattern e = true)
    ∧ (∃ p, f !! "password" = Some p ∧ (6 ≤ String.length p)%nat).
Proof.
  rewrite validateDocument_nil. unfold userSchema.
  rewrite !Forall_cons, Forall_nil.
  unfold doValidate, validateString, checkRequired. cbn [fst snd required
    minlength maxlength match_].
  split.
  - intros (Hu & He & Hp & _). repeat split.
    + destruct (f !! "username") as [u|]; [|done]. exists u.
      revert Hu. rule_cases.
    + destruct (f !! "email") as [e|]; [|done]. exists e.
      revert He. rule_cases. destruct (RegExp.test emailPattern e); done.
    + destruct (f !! "password") as [p|]; [|done]. exists p.
      revert Hp. rule_cases.
  - intros ((u & -> & Hu1 & Hu2) & (e & -> & He) & (p & -> & Hp)).
    repeat split.
    + rule_cases.
    + rewrite (test_nonempty _ _ He eq_refl). simpl. by rewrite He.
    + rule_cases.
Qed.

Lemma user_uniquePaths : uniquePaths userSchema = ["email"].
Proof. reflexivity. Qed.

Lemma strict_user (b : Fields) :
  strict userSchema b !! "username" = b !! "username"
  ∧ strict userSchema b !! "email" = b !! "email"
  ∧ strict userSchema b !! "password" = b !! "password".
Proof.
  repeat split; eapply strict_lookup_declared; unfold userSchema;
    repeat first [apply list_elem_of_here | apply list_elem_of_further].
Qed.

(** ** What [post] does on the users collection *)

Lemma users_post_accepts (c : Collection) (b : Fields) :
  fieldRules c b →
  Users.post Up b c
  = (Responded 201 (JDoc (new userSchema b c)),
     <[newObjectId c := strict userSchema b]> c).
Proof.
  destruct (strict_user b) as (Su & Se & Sp).
  intros ((u & Hu & Hu1 & Hu2) & (e & He & Hre & Huniq) & (p & Hp & Hp1)).
  unfold Users.post, post, save, new. cbn [_id fields].
  rewrite newObjectId_fresh, user_uniquePaths. cbn [List.find].
  assert (validateDocument userSchema (strict userSchema b) = []) as ->.
  { apply user_valid_iff. rewrite Su, Se, Sp. eauto 10. }
  assert (keyTaken c "email" (strict userSchema b !! "email") = false) as ->.
  { apply keyTaken_false. rewrite Se, He. done. }
  done.
Qed.

Lemma users_post_rejects (c : Collection) (b : Fields) :
  ¬ fieldRules c b →
  ∃ msg, Users.post Up b c = (Responded 400 (JError msg), c).
Proof.
  destruct (strict_user b) as (Su & Se & Sp).
  unfold Users.post, post, save, new. cbn [_id fields].
  rewrite newObjectId_fresh, user_uniquePaths. cbn [List.find].
  intros Hnot.
  destruct (validateDocument userSchema (strict userSchema b))
    as [|err errs] eqn:Hv; [|eauto].
  apply user_valid_iff in Hv. rewrite Su, Se, Sp in Hv.
  destruct Hv as (Hu & (e & He & Hre) & Hp).
  destruct (keyTaken c "email" (strict userSchema b !! "email")) eqn:Hk;
    [eauto|].
  exfalso. apply Hnot. split; [done|]. split; [|done].
  exists e. split; [done|]. split; [done|].
  rewrite keyTaken_false, Se, He in Hk. done.
Qed.

(** * Create *)

(** C1.  A Create whose body satisfies every field rule stores the document
    under an identifier no stored document had and answers 201 with a
    document whose username, email and password are the body's; a Create
    whose body breaks a rule stores nothing and answers 400 with an error
    message. *)
Theorem create_contract (c : Collection) (b : Fields) :
  (fieldRules c b →
     ∃ doc, Users.post Up b c
            = (Responded 201 (JDoc doc), <[_id doc := fields doc]> c)
            ∧ c !! _id doc = None
            ∧ fields doc !! "username" = b !! "username"
            ∧ fields doc !! "email" = b !! "email"
            ∧ fields doc !! "password" = b !! "password")
  ∧ (¬ fieldRules c b →
     ∃ msg, Users.post Up b c = (Responded 400 (JError msg), c)).
Proof.
  split; [|apply users_post_rejects].
  intros Hrules. exists (new userSchema b c).
  destruct (strict_user b) as (Su & Se & Sp).
  split; [by apply users_post_accepts|].
  split; [apply newObjectId_fresh | done].
Qed.

Lemma john_fieldRules : fieldRules ∅ john.
Proof.
  split; [|split].
  - exists "john_doe". split; [reflexivity | simpl; lia].
  - exists "john@example.com".
    split; [reflexivity | split; [vm_compute; reflexivity |]].
    intros i d Hi. rewrite lookup_empty in Hi. discriminate Hi.
  - exists "secret123". split; [reflexivity | simpl; lia].
Defined.

Lemma create_contract_witness :
  ∃ doc, Users.post Up john ∅
         = (Responded 201 (JDoc doc), <[_id doc := fields doc]> ∅)
         ∧ (∅ : Collection) !! _id doc = None
         ∧ fields doc !! "username" = john !! "username"
         ∧ fields doc !! "email" = john !! "email"
         ∧ fields doc !! "password" = john !! "password".
Proof. exact (proj1 (create_contract ∅ john) john_fieldRules). Defined.

(** The scenarios of the testing notes: the example body is created, a
    body whose email is the word [invalid] is refused. *)
Example create_john :
  (Users.post Up john ∅).1
  = Responded 201 (JDoc {| _id := 0%N; fields := john |}).
Proof. vm_compute. reflexivity. Qed.

Example create_invalid_email :
  (Users.post Up (<["email" := "invalid"]> john) ∅).1
  = Responded 400 (JError "User validation failed: email: Email invalid").
Proof. vm_compute. reflexivity. Qed.

(** * Get by identifier *)

(** C2.  Get by identifier has three outcomes, decided by the identifier and
    the collection: 400 when the identifier does not cast, 404 when it casts
    and no document is stored under it, 200 with the stored document when
    one is.  The three cases exclude one another and cover every request;
    the collection is left as it was. *)
Theorem get_three_outcomes (notFound invalidId : string)
    (c : Collection) (id : string) :
  (castObjectId id = None
   ∧ get notFound invalidId Up id c
     = (Responded 400 (JError invalidId), c))
  ∨ (∃ i, castObjectId id = Some i ∧ c !! i = None
          ∧ get notFound invalidId Up id c
            = (Responded 404 (JError notFound), c))
  ∨ (∃ i f, castObjectId id = Some i ∧ c !! i = Some f
            ∧ get notFound invalidId Up id c
              = (Responded 200 (JDoc {| _id := i; fields := f |}), c)).
Proof.
  unfold get, findById.
  destruct (castObjectId id) as [i|]; [|by left].
  destruct (c !! i) as [f|] eqn:Hi; simpl.
  - right. right. by exists i, f.
  - right. left. by exists i.
Qed.

(** * Delete *)

(** C6.  Delete of an identifier a document is stored under answers 200
    with [{ msg: "Deleted successfully" }] and removes that document and no
    other; a Get of the same identifier that follows answers 404. *)
Theorem delete_then_get (notFound invalidId : string)
    (c : Collection) (id : string) (i : ObjectId) (f : Fields) :
  castObjectId id = Some i → c !! i = Some f →
  delete_ notFound invalidId Up id c
  = (Responded 200 (JMsg "Deleted successfully"), delete i c)
  ∧ delete i c !! i = None
  ∧ (∀ j, j ≠ i → delete i c !! j = c !! j)
  ∧ get notFound invalidId Up id (delete i c)
    = (Responded 404 (JError notFound), delete i c).
Proof.
  intros Hid Hi. unfold delete_, findByIdAndDelete, get, findById.
  rewrite Hid, Hi. simpl. rewrite lookup_delete_eq. simpl.
  split; [done|]. split; [done|]. split; [|done].
  intros j Hj. by apply lookup_delete_ne.
Qed.

(** * Invariants of the collection *)

Section Invariants.

Variable modelName : string.
Variable schema : Schema.
Variables notFound invalidId : string.

Implicit Types (c : Collection) (f upd body : Fields).

Lemma find_unique_None (P : string → bool) :
  List.find P (uniquePaths schema) = None
  ↔ ∀ p, p ∈ uniquePaths schema → P p = false.
Proof.
  split.
  - intros H p Hp. apply (List.find_none _ _ H). by apply list_elem_of_In.
  - intros H. destruct (List.find P (uniquePaths schema)) as [p|] eqn:Hf;
      [|done].
    apply List.find_some in Hf as [Hin HP].
    apply list_elem_of_In in Hin. rewrite (H p Hin) in HP. done.
Qed.

(** What a fulfilled [save] has checked and done. *)
Lemma save_Fulfilled drv doc c c' :
  save modelName schema drv doc c = Fulfilled c' →
  drv = Up
  ∧ validateDocument schema (fields doc) = []
  ∧ c !! _id doc = None
  ∧ (∀ p, p ∈ uniquePaths schema →
          keyTaken c p (fields doc !! p) = false)
  ∧ c' = <[_id doc := fields doc]> c.
Proof.
  unfold save.
  destruct (validateDocument schema (fields doc)); [|done].
  destruct drv; [|done].
  destruct (c !! _id doc); [done|].
  destruct (List.find _ _) eqn:Hf; [done|].
  intros [= <-]. rewrite find_unique_None in Hf. done.
Qed.

(** What a fulfilled [findByIdAndUpdate] has checked and done. *)
Lemma findByIdAndUpdate_Fulfilled drv id body c r c' :
  findByIdAndUpdate schema drv id body c = Fulfilled (r, c') →
  ∃ i, castObjectId id = Some i ∧ drv = Up
       ∧ validateUpdate schema (strict schema body) = []
       ∧ ((c !! i = None ∧ r = None ∧ c' = c)
          ∨ (∃ f, c !! i = Some f
                  ∧ (∀ p, p ∈ uniquePaths schema →
                          (strict schema body ∪ f) !! p = f !! p
                          ∨ keyTaken c p ((strict schema body ∪ f) !! p)
                            = false)
                  ∧ r = Some {| _id := i;
                                fields := strict schema body ∪ f |}
                  ∧ c' = <[i := strict schema body ∪ f]> c)).
Proof.
  unfold findByIdAndUpdate.
  destruct (castObjectId id) as [i|]; [|done].
  destruct (validateUpdate schema (strict schema body)); [|done].
  destruct drv; [|done].
  intros H. exists i. split; [done|]. split; [done|]. split; [done|].
  destruct (c !! i) as [f|]; [|left; by inversion H].
  destruct (List.find _ _) eqn:Hf; [done|]. inversion H; subst.
  right. exists f. split; [done|]. split; [|done].
  rewrite find_unique_None in Hf. intros p Hp.
  specialize (Hf p Hp). apply andb_false_iff in Hf as [Hf|Hf]; [|by right].
  left. apply bool_decide_eq_false in Hf.
  destruct (decide ((strict schema body ∪ f) !! p = f !! p)); [done|].
  by destruct Hf.
Qed.

Lemma validDocs_insert c i f :
  validDocs schema c → validateDocument schema f = [] →
  validDocs schema (<[i := f]> c).
Proof.
  intros Hc Hf j g. rewrite lookup_insert. case_decide; [|by apply Hc].
  by intros [= <-].
Qed.

Lemma validDocs_delete c i :
  validDocs schema c → validDocs schema (delete i c).
Proof.
  intros Hc j g Hj. apply lookup_delete_Some in Hj as [_ Hj].
  by apply (Hc j).
Qed.

Lemma uniqueKeys_delete c i :
  uniqueKeys schema c → uniqueKeys schema (delete i c).
Proof.
  intros Hc p Hp j k fj fk Hj Hk.
  apply lookup_delete_Some in Hj as [_ Hj].
  apply lookup_delete_Some in Hk as [_ Hk].
  by apply (Hc p Hp j k fj fk).
Qed.

(** Storing [f] under [i] keeps the keys unique when, at every unique
    path, no document other than the one under [i] has the key of [f]. *)
Lemma uniqueKeys_insert c i f :
  uniqueKeys schema c →
  (∀ p, p ∈ uniquePaths schema →
        ∀ j d, j ≠ i → c !! j = Some d → d !! p ≠ f !! p) →
  uniqueKeys schema (<[i := f]> c).
Proof.
  intros Hc Hf p Hp j k fj fk. rewrite !lookup_insert.
  repeat case_decide; subst.
  - done.
  - intros [= <-] Hk Heq. exfalso. by apply (Hf p Hp k fk).
  - intros Hj [= <-] Heq. exfalso. by apply (Hf p Hp j fj).
  - by apply Hc.
Qed.

(** On a collection with unique keys, the index check of the update
    refuses exactly the keys another document has. *)
Lemma update_check_others c i f (m : Fields) p :
  uniqueKeys schema c → p ∈ uniquePaths schema → c !! i = Some f →
  (m !! p = f !! p ∨ keyTaken c p (m !! p) = false)
  ↔ ∀ j d, j ≠ i → c !! j = Some d → d !! p ≠ m !! p.
Proof.
  intros Hc Hp Hi. split.
  - intros [Heq|Hk] j d Hj Hd Hdm.
    + apply Hj. apply (Hc p Hp j i d f Hd Hi). congruence.
    + rewrite keyTaken_false in Hk. by apply (Hk j d).
  - intros H. destruct (decide (m !! p = f !! p)) as [|Hne]; [by left|].
    right. apply keyTaken_false. intros j d Hd Hdm.
    destruct (decide (j = i)) as [->|Hj]; [|by apply (H j d)].
    apply Hne. congruence.
Qed.

Lemma handle_invariants drv req c :
  validDocs schema c ∧ uniqueKeys schema c →
  validDocs schema (handle modelName schema notFound invalidId drv req c).2
  ∧ uniqueKeys schema
      (handle modelName schema notFound invalidId drv req c).2.
Proof.
  intros [Hv Hu]. destruct req as [body| |id|id body|id]; simpl.
  - unfold post.
    destruct (save _ _ _ _ _) as [c'|err] eqn:Hs; [|done].
    apply save_Fulfilled in Hs as (_ & Hval & Hnew & Hkeys & ->). simpl.
    split; [by apply validDocs_insert|].
    apply uniqueKeys_insert; [done|]. intros p Hp j d _ Hd.
    specialize (Hkeys p Hp). rewrite keyTaken_false in Hkeys.
    by apply (Hkeys j d).
  - unfold getAll. by destruct (find drv c).
  - unfold get. by destruct (findById drv id c) as [[?|]|].
  - unfold put.
    destruct (findByIdAndUpdate schema drv id body c) as [[r c']|err]
      eqn:Hs; [|done].
    apply findByIdAndUpdate_Fulfilled in Hs
      as (i & Hid & _ & Hval & [(Hi & -> & ->)|(f & Hi & Hkeys & -> & ->)]);
      [done|]. simpl.
    split.
    + apply validDocs_insert; [done|].
      rewrite (validate_merge schema f _ (Hv i f Hi)). done.
    + apply uniqueKeys_insert; [done|]. intros p Hp.
      apply (update_check_others c i f _ p Hu Hp Hi). by apply Hkeys.
  - unfold delete_, findByIdAndDelete.
    destruct (castObjectId id) as [i|]; [|done].
    destruct drv; [|done].
    destruct (c !! i); simpl;
      (split; [by apply validDocs_delete | by apply uniqueKeys_delete]).
Qed.

Lemma reachable_invariants c :
  reachable modelName schema notFound invalidId c →
  validDocs schema c ∧ uniqueKeys schema c.
Proof.
  induction 1 as [|drv req c Hc IH].
  - split.
    + intros i f Hi. by rewrite lookup_empty in Hi.
    + intros p _ i j fi fj Hi. by rewrite lookup_empty in Hi.
  - by apply handle_invariants.
Qed.

End Invariants.

(** * Update *)

Section UpdateFacts.

Variable schema : Schema.
Variable notFound : string.

Implicit Types (c : Collection) (f b : Fields).

Lemma put_accepted c id i f b :
  castObjectId id = Some i → c !! i = Some f →
  updateAccepted schema c f b →
  put schema notFound Up id b c
  = (Responded 200 (JDoc {| _id := i; fields := strict schema b ∪ f |}),
     <[i := strict schema b ∪ f]> c).
Proof.
  intros Hid Hi [Hval Hkeys]. unfold put, findByIdAndUpdate.
  rewrite Hid, Hval, Hi.
  assert (List.find
            (λ p, bool_decide ((strict schema b ∪ f) !! p ≠ f !! p)
                  && keyTaken c p ((strict schema b ∪ f) !! p))
            (uniquePaths schema) = None) as ->; [|done].
  apply find_unique_None. intros p Hp.
  destruct (Hkeys p Hp) as [Heq|Hk].
  - rewrite bool_decide_eq_false_2; [done|]. by intros H.
  - rewrite Hk. by rewrite andb_false_r.
Qed.

Lemma put_refused c id i f b :
  castObjectId id = Some i → c !! i = Some f →
  ¬ updateAccepted schema c f b →
  ∃ msg, put schema notFound Up id b c = (Responded 400 (JError msg), c).
Proof.
  intros Hid Hi Hnot. unfold put.
  destruct (findByIdAndUpdate schema Up id b c) as [[r c']|err] eqn:Hs;
    [|eauto].
  exfalso. apply Hnot.
  apply findByIdAndUpdate_Fulfilled in Hs
    as (i' & Hid' & _ & Hval & [(Hi' & _)|(f' & Hi' & Hkeys & _)]);
    assert (i' = i) as -> by congruence; [congruence|].
  assert (f' = f) as -> by congruence. done.
Qed.

(** With valid documents and unique keys in the collection, the update
    is accepted exactly when the merged document is valid as a whole. *)
Lemma updateAccepted_mergedValid c i f b :
  validDocs schema c → uniqueKeys schema c → c !! i = Some f →
  updateAccepted schema c f b
  ↔ mergedValid schema c i (strict schema b ∪ f).
Proof.
  intros Hv Hu Hi. unfold updateAccepted, mergedValid.
  rewrite (validate_merge schema f _ (Hv i f Hi)).
  split; intros [Hval Hkeys]; (split; [done|]); intros p Hp.
  - apply (update_check_others schema c i f _ p Hu Hp Hi). by apply Hkeys.
  - apply (update_check_others schema c i f _ p Hu Hp Hi). by apply Hkeys.
Qed.

End UpdateFacts.

(** C3.  In every collection the service can be in, an Update of a stored
    document merges the supplied fields into it and is decided by the
    validation of the merged document -- the validators Create runs, and the
    unique key against the other documents: when the merged document is
    valid it is stored and returned with 200; when it is not, the answer is
    400 with the message and the collection is left as it was. *)
Theorem update_contract (modelName : string) (schema : Schema)
    (notFound invalidId : string)
    (c : Collection) (id : string) (i : ObjectId) (f b : Fields) :
  reachable modelName schema notFound invalidId c →
  castObjectId id = Some i → c !! i = Some f →
  (mergedValid schema c i (strict schema b ∪ f) →
     put schema notFound Up id b c
     = (Responded 200 (JDoc {| _id := i; fields := strict schema b ∪ f |}),
        <[i := strict schema b ∪ f]> c))
  ∧ (¬ mergedValid schema c i (strict schema b ∪ f) →
     ∃ msg, put schema notFound Up id b c
            = (Responded 400 (JError msg), c)).
Proof.
  intros Hreach Hid Hi.
  destruct (reachable_invariants _ _ _ _ _ Hreach) as [Hv Hu].
  pose proof (updateAccepted_mergedValid schema c i f b Hv Hu Hi) as Hiff.
  split; intros H.
  - apply put_accepted; [done..|]. by apply Hiff.
  - apply put_refused with (i := i) (f := f); [done..|].
    intros Hacc. apply H. by apply Hiff.
Qed.

Lemma johnStore_reachable : Users.reachable johnStore.
Proof.
  exact (reachable_handle Users.modelName userSchema Users.notFound
           Users.invalidId Up (Create john) ∅
           (reachable_empty _ _ _ _)).
Defined.

Lemma johnStore_lookup : johnStore !! 0%N = Some john.
Proof. vm_compute. reflexivity. Defined.

Lemma update_contract_witness :
  (mergedValid userSchema johnStore 0%N
     (strict userSchema {[ "username" := "updateduser" ]} ∪ john) →
   Users.put Up johnId {[ "username" := "updateduser" ]} johnStore
   = (Responded 200
        (JDoc {| _id := 0%N;
                 fields := strict userSchema {[ "username" := "updateduser" ]}
                           ∪ john |}),
      <[0%N := strict userSchema {[ "username" := "updateduser" ]} ∪ john]>
        johnStore))
  ∧ (¬ mergedValid userSchema johnStore 0%N
         (strict userSchema {[ "username" := "updateduser" ]} ∪ john) →
     ∃ msg, Users.put Up johnId {[ "username" := "updateduser" ]} johnStore
            = (Responded 400 (JError msg), johnStore)).
Proof.
  exact (update_contract Users.modelName userSchema Users.notFound
           Users.invalidId johnStore johnId 0%N john
           {[ "username" := "updateduser" ]}
           johnStore_reachable eq_refl johnStore_lookup).
Defined.

(** * Email uniqueness *)

(** C4.  In every collection the service can be in, no two documents have
    the same email; whatever request is handled next, and whether or not the
    storage layer answers, this still holds afterwards; and a Create with
    the email of a stored document answers 400 and leaves the collection as
    it was. *)
Theorem email_uniqueness (c : Collection) :
  Users.reachable c →
  distinctEmails c
  ∧ (∀ drv req, distinctEmails (Users.handle drv req c).2)
  ∧ (∀ b e, b !! "email" = Some e →
            (∃ i f, c !! i = Some f ∧ f !! "email" = Some e) →
            ∃ msg, Users.post Up b c = (Responded 400 (JError msg), c)).
Proof.
  assert (∀ c', Users.reachable c' → distinctEmails c') as Hdistinct.
  { intros c' Hreach.
    destruct (reachable_invariants _ _ _ _ _ Hreach) as [_ Hu].
    unfold distinctEmails. apply (Hu "email").
    rewrite user_uniquePaths. apply list_elem_of_here. }
  intros Hreach. split; [by apply Hdistinct|]. split.
  - intros drv req. apply Hdistinct. by apply reachable_handle.
  - intros b e Hb (i & f & Hi & Hf). apply users_post_rejects.
    intros (_ & (e' & He' & _ & Hfree) & _).
    assert (e' = e) as -> by congruence. by apply (Hfree i f).
Qed.

Lemma email_uniqueness_witness :
  distinctEmails johnStore
  ∧ (∀ drv req, distinctEmails (Users.handle drv req johnStore).2)
  ∧ (∀ b e, b !! "email" = Some e →
            (∃ i f, johnStore !! i = Some f ∧ f !! "email" = Some e) →
            ∃ msg, Users.post Up b johnStore
                   = (Responded 400 (JError msg), johnStore)).
Proof. exact (email_uniqueness johnStore johnStore_reachable). Defined.

(** * Update of the username alone *)

Lemma singleton_username (u : string) :
  strict userSchema {[ "username" := u ]} = {[ "username" := u ]}.
Proof.
  apply map_eq. intros p. rewrite strict_lookup.
  case_decide as Hp; [done|].
  destruct (decide (p = "username")) as [->|Hne].
  - exfalso. apply Hp. apply list_elem_of_here.
  - by rewrite lookup_singleton_ne.
Qed.

Lemma username_update_accepted (c : Collection) (f : Fields) (u : string) :
  updateAccepted userSchema c f {[ "username" := u ]}
  ↔ (3 ≤ String.length u)%nat ∧ (String.length u ≤ 50)%nat.
Proof.
  unfold updateAccepted. rewrite singleton_username, user_uniquePaths.
  rewrite validateUpdate_nil. unfold userSchema.
  rewrite !Forall_cons, Forall_nil. cbn [fst snd].
  rewrite lookup_singleton_eq, !lookup_singleton_ne by done.
  split.
  - intros ((Hu & _) & _). specialize (Hu u eq_refl). revert Hu.
    unfold doValidate, validateString, checkRequired.
    cbn [required minlength maxlength match_]. rule_cases.
  - intros [Hu1 Hu2]. split.
    + split; [|done]. intros v [= <-].
      unfold doValidate, validateString, checkRequired.
      cbn [required minlength maxlength match_]. rule_cases.
    + intros p Hp. apply list_elem_of_singleton in Hp as ->. left.
      apply lookup_union_r. by apply lookup_singleton_ne.
Qed.

(** C8, as the code has it.  An Update whose body holds only a username
    never changes the email or the password of the stored document.  When
    the username has length 3 to 50 the answer is 200 with the merged
    document -- the new username, the old email and password, the same
    identifier -- which is what is stored; otherwise the answer is 400 and
    the collection is left as it was. *)
Theorem username_only_update (c : Collection) (id : string) (i : ObjectId)
    (f : Fields) (u : string) :
  castObjectId id = Some i → c !! i = Some f →
  (∃ f', (Users.put Up id {[ "username" := u ]} c).2 !! i = Some f'
         ∧ f' !! "email" = f !! "email"
         ∧ f' !! "password" = f !! "password")
  ∧ ((3 ≤ String.length u)%nat ∧ (String.length u ≤ 50)%nat →
     Users.put Up id {[ "username" := u ]} c
     = (Responded 200 (JDoc {| _id := i; fields := <["username" := u]> f |}),
        <[i := <["username" := u]> f]> c))
  ∧ (¬ ((3 ≤ String.length u)%nat ∧ (String.length u ≤ 50)%nat) →
     ∃ msg, Users.put Up id {[ "username" := u ]} c
            = (Responded 400 (JError msg), c)).
Proof.
  intros Hid Hi.
  assert (strict userSchema {[ "username" := u ]} ∪ f = <["username" := u]> f)
    as Hmerge.
  { rewrite singleton_username. by rewrite insert_union_singleton_l. }
  assert ((3 ≤ String.length u)%nat ∧ (String.length u ≤ 50)%nat →
          Users.put Up id {[ "username" := u ]} c
          = (Responded 200
               (JDoc {| _id := i; fields := <["username" := u]> f |}),
             <[i := <["username" := u]> f]> c)) as Hok.
  { intros Hu. rewrite <- Hmerge. apply put_accepted; [done..|].
    by apply username_update_accepted. }
  assert (¬ ((3 ≤ String.length u)%nat ∧ (String.length u ≤ 50)%nat) →
          ∃ msg, Users.put Up id {[ "username" := u ]} c
                 = (Responded 400 (JError msg), c)) as Hbad.
  { intros Hu. apply put_refused with (i := i) (f := f); [done..|].
    by rewrite username_update_accepted. }
  split; [|split; [exact Hok | exact Hbad]].
  destruct (decide ((3 ≤ String.length u)%nat ∧ (String.length u ≤ 50)%nat))
    as [Hu|Hu].
  - rewrite (Hok Hu). cbn [snd]. exists (<["username" := u]> f).
    rewrite lookup_insert_eq. split; [done|].
    split; apply lookup_insert_ne; discriminate.
  - destruct (Hbad Hu) as [msg ->]. cbn [snd]. exists f.
    split; [exact Hi | split; reflexivity].
Qed.

Lemma username_only_update_witness :
  (∃ f', (Users.put Up johnId {[ "username" := "updateduser" ]} johnStore).2
           !! 0%N = Some f'
         ∧ f' !! "email" = john !! "email"
         ∧ f' !! "password" = john !! "password")
  ∧ ((3 ≤ String.length "updateduser")%nat
     ∧ (String.length "updateduser" ≤ 50)%nat →
     Users.put Up johnId {[ "username" := "updateduser" ]} johnStore
     = (Responded 200
          (JDoc {| _id := 0%N; fields := <["username" := "updateduser"]> john |}),
        <[0%N := <["username" := "updateduser"]> john]> johnStore))
  ∧ (¬ ((3 ≤ String.length "updateduser")%nat
        ∧ (String.length "updateduser" ≤ 50)%nat) →
     ∃ msg, Users.put Up johnId {[ "username" := "updateduser" ]} johnStore
            = (Responded 400 (JError msg), johnStore)).
Proof.
  exact (username_only_update johnStore johnId 0%N john "updateduser"
           eq_refl johnStore_lookup).
Defined.

(** C8 as stated fails: a username of two characters is refused with 400,
    so the body of the response is an error and not the merged document. *)
Lemma username_only_update_counterexample :
  castObjectId johnId = Some 0%N
  ∧ johnStore !! 0%N = Some john
  ∧ (Users.put Up johnId {[ "username" := "ab" ]} johnStore).1
    = Responded 400
        (JError
           "Validation failed: username: Path `username` (`ab`) is shorter than the minimum allowed length (3).").
Proof.
  split; [reflexivity|]. split; [exact johnStore_lookup|].
  vm_compute. reflexivity.
Qed.

(** * Update with fields left out *)

Lemma validateUpdate_supplied (schema : Schema) (upd : Fields) p msg :
  (p, msg) ∈ validateUpdate schema upd → is_Some (upd !! p).
Proof.
  unfold validateUpdate. intros Hin.
  apply list_elem_of_omap in Hin as (e & _ & He).
  destruct (upd !! e.1) as [v|] eqn:Hu; [|discriminate He].
  destruct (doValidate e.1 e.2 (Some v)) as [m|]; [|discriminate He].
  simpl in He. injection He as <- <-. by exists v.
Qed.

Lemma strict_supplied (schema : Schema) (b : Fields) p :
  is_Some (strict schema b !! p) → is_Some (b !! p).
Proof. rewrite strict_lookup. case_decide; [done|]. by intros [? ?]. Qed.

Lemma strict_omitted (schema : Schema) (b : Fields) p :
  b !! p = None → strict schema b !! p = None.
Proof. intros Hb. rewrite strict_lookup, Hb. by case_decide. Qed.

Lemma updateAccepted_empty (schema : Schema) (c : Collection) (f b : Fields) :
  strict schema b = ∅ → updateAccepted schema c f b.
Proof.
  intros Hb. unfold updateAccepted. rewrite Hb. split.
  - apply validateUpdate_nil. apply Forall_forall. intros e _ v Hv.
    by rewrite lookup_empty in Hv.
  - intros p _. left. by rewrite (left_id_L ∅ (∪)).
Qed.

(** C10, as the code has it.  On a stored document, whatever its fields:
    an Update that supplies no declared field answers 200 with the document
    and changes nothing; an Update is accepted with 200 exactly when the
    fields it supplies pass their validators and no unique index refuses a
    changed key, and it then leaves every field it omits as it was;
    validation errors arise only at paths the body supplies, so the rules of
    the omitted fields never fire. *)
Theorem partial_update (schema : Schema) (notFound : string)
    (c : Collection) (id : string) (i : ObjectId) (f b : Fields) :
  castObjectId id = Some i → c !! i = Some f →
  (strict schema b = ∅ →
     put schema notFound Up id b c
     = (Responded 200 (JDoc {| _id := i; fields := f |}), c))
  ∧ (updateAccepted schema c f b →
     put schema notFound Up id b c
     = (Responded 200 (JDoc {| _id := i; fields := strict schema b ∪ f |}),
        <[i := strict schema b ∪ f]> c)
     ∧ ∀ p, b !! p = None → (strict schema b ∪ f) !! p = f !! p)
  ∧ (¬ updateAccepted schema c f b →
     ∃ msg, put schema notFound Up id b c
            = (Responded 400 (JError msg), c))
  ∧ (∀ p msg, (p, msg) ∈ validateUpdate schema (strict schema b) →
              is_Some (b !! p)).
Proof.
  intros Hid Hi. split; [|split; [|split]].
  - intros Hb.
    rewrite (put_accepted schema notFound c id i f b Hid Hi
               (updateAccepted_empty schema c f b Hb)).
    rewrite Hb, (left_id_L ∅ (∪)). by rewrite insert_id.
  - intros Hacc. split; [by apply put_accepted|].
    intros p Hp. apply lookup_union_r. by apply strict_omitted.
  - by apply put_refused with (i := i).
  - intros p msg Hin. apply (strict_supplied schema).
    by apply validateUpdate_supplied in Hin.
Qed.

Lemma partial_update_witness :
  (strict userSchema ∅ = ∅ →
     Users.put Up johnId ∅ johnStore
     = (Responded 200 (JDoc {| _id := 0%N; fields := john |}), johnStore))
  ∧ (updateAccepted userSchema johnStore john ∅ →
     Users.put Up johnId ∅ johnStore
     = (Responded 200 (JDoc {| _id := 0%N; fields := strict userSchema ∅ ∪ john |}),
        <[0%N := strict userSchema ∅ ∪ john]> johnStore)
     ∧ ∀ p, (∅ : Fields) !! p = None →
            (strict userSchema ∅ ∪ john) !! p = john !! p)
  ∧ (¬ updateAccepted userSchema johnStore john ∅ →
     ∃ msg, Users.put Up johnId ∅ johnStore
            = (Responded 400 (JError msg), johnStore))
  ∧ (∀ p msg, (p, msg) ∈ validateUpdate userSchema (strict userSchema ∅) →
              is_Some ((∅ : Fields) !! p)).
Proof.
  exact (partial_update userSchema Users.notFound johnStore johnId 0%N john ∅
           eq_refl johnStore_lookup).
Defined.

(** C10 as stated fails: a body that leaves out the username and the
    password, and supplies an email that does not match the pattern, is
    answered 400. *)
Lemma partial_update_counterexample :
  castObjectId johnId = Some 0%N
  ∧ johnStore !! 0%N = Some john
  ∧ ({[ "email" := "invalid" ]} : Fields) !! "username" = None
  ∧ ({[ "email" := "invalid" ]} : Fields) !! "password" = None
  ∧ (Users.put Up johnId {[ "email" := "invalid" ]} johnStore).1
    = Responded 400 (JError "Validation failed: email: Email invalid").
Proof.
  split; [reflexivity|]. split; [exact johnStore_lookup|].
  split; [reflexivity|]. split; [reflexivity|].
  vm_compute. reflexivity.
Qed.

Lemma delete_then_get_witness :
  Users.delete_ Up johnId johnStore
  = (Responded 200 (JMsg "Deleted successfully"), delete 0%N johnStore)
  ∧ delete 0%N johnStore !! 0%N = None
  ∧ (∀ j, j ≠ 0%N → delete 0%N johnStore !! j = johnStore !! j)
  ∧ Users.get Up johnId (delete 0%N johnStore)
    = (Responded 404 (JError Users.notFound), delete 0%N johnStore).
Proof.
  exact (delete_then_get Users.notFound Users.invalidId johnStore johnId
           0%N john eq_refl johnStore_lookup).
Defined.

(** * Storage faults *)

(** C7, as the code has it.  When the storage layer fails, the List handler,
    which has no [try], lets the rejection through; every other handler
    catches it and answers 400 -- Get and Delete with the fixed message of a
    malformed identifier -- and never 404.  The collection is left as it
    was. *)
Theorem faults_by_handler (modelName : string) (schema : Schema)
    (notFound invalidId : string) (reason : string) (req : Request)
    (c : Collection) :
  match req with
  | ReadAll =>
      handle modelName schema notFound invalidId (Down reason) req c
      = (Unhandled (DriverFault reason), c)
  | ReadOne _ | Delete _ =>
      handle modelName schema notFound invalidId (Down reason) req c
      = (Responded 400 (JError invalidId), c)
  | Create _ | Update _ _ =>
      ∃ msg, handle modelName schema notFound invalidId (Down reason) req c
             = (Responded 400 (JError msg), c)
  end.
Proof.
  destruct req as [b| |id|id b|id]; simpl.
  - unfold post, save.
    destruct (validateDocument schema (fields (new schema b c))); eauto.
  - reflexivity.
  - unfold get, findById. by destruct (castObjectId id).
  - unfold put, findByIdAndUpdate. destruct (castObjectId id); [|eauto].
    destruct (validateUpdate schema (strict schema b)); eauto.
  - unfold delete_, findByIdAndDelete. by destruct (castObjectId id).
Qed.

(** C7 as stated fails: the identifier casts, the storage layer fails in
    [findById], and the handler answers 400. *)
Lemma fault_caught_counterexample :
  castObjectId johnId = Some 0%N
  ∧ findById (Down "connection lost") johnId johnStore
    = Rejected (DriverFault "connection lost")
  ∧ (Users.get (Down "connection lost") johnId johnStore).1
    = Responded 400 (JError "Invalid user ID").
Proof.
  split; [reflexivity|]. split; [reflexivity|]. vm_compute. reflexivity.
Qed.

(** * What the responses carry *)

Lemma find_docs (c : Collection) (d : Document) :
  d ∈ (λ kv : N * Fields, {| _id := kv.1; fields := kv.2 |}) <$> map_to_list c
  ↔ c !! _id d = Some (fields d).
Proof.
  rewrite list_elem_of_fmap. split.
  - intros ([k v] & -> & Hkv). by apply elem_of_map_to_list in Hkv.
  - intros Hd. exists (_id d, fields d). split; [by destruct d|].
    by apply elem_of_map_to_list.
Qed.

(** C9.  A response of the users router that carries a document has status
    200 or 201, and the document it carries is the one stored under its
    identifier when the handler returns, field for field; a response that
    carries a list carries exactly the stored documents.  The password of a
    created document is the body's, and so is the password an Update
    supplies. *)
Theorem documents_returned_as_stored (drv : Driver) (req : Request)
    (c : Collection) :
  match (Users.handle drv req c).1 with
  | Responded s (JDoc doc) =>
      (s = 200 ∨ s = 201)
      ∧ (Users.handle drv req c).2 !! _id doc = Some (fields doc)
      ∧ (∀ b, req = Create b → fields doc !! "password" = b !! "password")
      ∧ (∀ id b p, req = Update id b → b !! "password" = Some p →
                   fields doc !! "password" = Some p)
  | Responded s (JDocs docs) =>
      s = 200
      ∧ ∀ d, d ∈ docs ↔ (Users.handle drv req c).2 !! _id d = Some (fields d)
  | _ => True
  end.
Proof.
  unfold Users.handle. destruct req as [b| |id|id b|id]; cbn [handle].
  - unfold post.
    destruct (save _ _ _ _ _) as [c'|err] eqn:Hs; cbn [fst snd]; [|exact I].
    apply save_Fulfilled in Hs as (_ & _ & _ & _ & ->).
    split; [by right|]. split; [apply lookup_insert_eq|]. split.
    + intros b' [= <-]. apply (strict_user b).
    + intros id' b' p [=].
  - unfold getAll, find. destruct drv; cbn [fst snd]; [|exact I].
    split; [reflexivity|]. apply find_docs.
  - unfold get, findById. destruct (castObjectId id) as [i|]; [|exact I].
    destruct drv; [|exact I].
    destruct (c !! i) as [f|] eqn:Hi; cbn [fmap option_fmap option_map fst snd];
      [|exact I].
    split; [by left|]. split; [exact Hi|]. split.
    + intros b' [=].
    + intros id' b' p [=].
  - unfold put.
    destruct (findByIdAndUpdate userSchema drv id b c) as [[r c']|err] eqn:Hs;
      [|exact I].
    apply findByIdAndUpdate_Fulfilled in Hs
      as (i & _ & _ & _ & [(_ & -> & ->)|(f & _ & _ & -> & ->)]);
      cbn [fst snd _id fields]; [exact I|].
    split; [by left|]. split; [apply lookup_insert_eq|]. split.
    + intros b' [=].
    + intros id' b' p [= <- <-] Hp.
      apply lookup_union_Some_l. destruct (strict_user b) as (_ & _ & ->).
      exact Hp.
  - unfold delete_.
    destruct (findByIdAndDelete drv id c) as [[[d|] c']|err]; exact I.
Qed.

(** * Routing *)

(** C5, as the code has it.  Under the base path /users the server runs, for
    each of the five verb-and-path pairs, the handler of the users router on
    the users collection; the groups router registers the same five pairs
    with its own handlers, relative to the path it is mounted at. *)
Theorem crud_routes (drv : Driver) (db : Db) (id : string) (b : Fields) :
  (serve server drv {| method := POST; url := ["users"]; body := b |} db
   = inUsers db (Users.post drv b (users db))
   ∧ serve server drv {| method := GET; url := ["users"]; body := b |} db
     = inUsers db (Users.getAll drv (users db))
   ∧ serve server drv {| method := GET; url := ["users"; id]; body := b |} db
     = inUsers db (Users.get drv id (users db))
   ∧ serve server drv {| method := PUT; url := ["users"; id]; body := b |} db
     = inUsers db (Users.put drv id b (users db))
   ∧ serve server drv {| method := DELETE; url := ["users"; id]; body := b |} db
     = inUsers db (Users.delete_ drv id (users db)))
  ∧ (route (routes groupsRouter) POST [] b = Some (Create b)
     ∧ route (routes groupsRouter) GET [] b = Some ReadAll
     ∧ route (routes groupsRouter) GET [id] b = Some (ReadOne id)
     ∧ route (routes groupsRouter) PUT [id] b = Some (Update id b)
     ∧ route (routes groupsRouter) DELETE [id] b = Some (Delete id)).
Proof. repeat split; reflexivity. Qed.

(** C5 as stated fails under /groups: server.js mounts no router there, so
    the request reaches no handler and Express answers 404. *)
Lemma groups_not_mounted_counterexample :
  dispatch server {| method := GET; url := ["groups"]; body := ∅ |} = NoRoute
  ∧ (serve server Up {| method := GET; url := ["groups"]; body := ∅ |}
       emptyDb).1
    = Responded 404 (JText "Cannot GET /groups").
Proof. split; vm_compute; reflexivity. Qed.

(** * Further properties of the routers *)

Section RouterFacts.

Variable modelName : string.
Variable schema : Schema.
Variables notFound invalidId : string.

Implicit Types (c : Collection) (f b : Fields).

Lemma post_Created drv b c s doc c' :
  post modelName schema drv b c = (Responded s (JDoc doc), c') →
  s = 201 ∧ drv = Up ∧ doc = new schema b c
  ∧ validateDocument schema (strict schema b) = []
  ∧ c !! _id doc = None
  ∧ c' = <[_id doc := fields doc]> c.
Proof.
  unfold post.
  destruct (save modelName schema drv (new schema b c) c) as [c1|err] eqn:Hs;
    [|discriminate].
  intros H. injection H as <- <- <-.
  apply save_Fulfilled in Hs as (-> & Hval & Hnew & _ & ->).
  repeat (split; [reflexivity || assumption|]). reflexivity.
Qed.

Lemma put_Updated drv id b c s doc c' :
  put schema notFound drv id b c = (Responded s (JDoc doc), c') →
  s = 200 ∧ drv = Up
  ∧ castObjectId id = Some (_id doc)
  ∧ (∃ f, c !! _id doc = Some f ∧ fields doc = strict schema b ∪ f)
  ∧ c' = <[_id doc := fields doc]> c.
Proof.
  unfold put.
  destruct (findByIdAndUpdate schema drv id b c) as [[[d|] c1]|err] eqn:Hs;
    [|discriminate..].
  intros H. injection H as <- <- <-.
  apply findByIdAndUpdate_Fulfilled in Hs
    as (i & Hid & -> & _ & [(_ & Hr & _)|(f & Hi & _ & Hr & ->)]);
    [discriminate Hr|].
  injection Hr as ->. cbn [_id fields].
  split; [reflexivity|]. split; [reflexivity|]. split; [exact Hid|].
  split; [|reflexivity]. exists f. split; [exact Hi | reflexivity].
Qed.

(** X1.  A handler that does not answer 200 or 201 has written nothing, and
    while the storage layer is failing no handler writes at all. *)
Theorem failure_writes_nothing drv reason req c :
  ((handle modelName schema notFound invalidId drv req c).2 = c
   ∨ ∃ body, (handle modelName schema notFound invalidId drv req c).1
             = Responded 200 body
             ∨ (handle modelName schema notFound invalidId drv req c).1
               = Responded 201 body)
  ∧ (handle modelName schema notFound invalidId (Down reason) req c).2 = c.
Proof.
  split.
  - destruct req as [b| |id|id b|id]; cbn [handle].
    + unfold post. destruct (save _ _ _ _ _); cbn [fst snd]; eauto.
    + unfold getAll. destruct (find drv c); cbn [fst snd]; eauto.
    + unfold get. destruct (findById drv id c) as [[d|]|]; cbn [fst snd]; eauto.
    + unfold put.
      destruct (findByIdAndUpdate schema drv id b c) as [[[d|] c1]|err] eqn:Hs;
        cbn [fst snd]; eauto.
      apply findByIdAndUpdate_Fulfilled in Hs
        as (i & _ & _ & _ & [(_ & _ & ->)|(f & _ & _ & Hr & _)]);
        [by left | discriminate Hr].
    + unfold delete_, findByIdAndDelete.
      destruct (castObjectId id) as [i|]; [|by left].
      destruct drv; [|by left].
      destruct (c !! i) as [f|] eqn:Hi; cbn [fmap option_fmap option_map fst snd];
        [eauto|].
      left. by apply delete_id.
  - destruct req as [b| |id|id b|id]; cbn [handle].
    + unfold post, save. by destruct (validateDocument schema _).
    + reflexivity.
    + unfold get, findById. by destruct (castObjectId id).
    + unfold put, findByIdAndUpdate. destruct (castObjectId id); [|done].
      by destruct (validateUpdate schema (strict schema b)).
    + unfold delete_, findByIdAndDelete. by destruct (castObjectId id).
Qed.

(** X2.  With the storage layer answering, List answers 200 with every
    stored document exactly once -- as many documents as the collection
    holds, none for the empty collection -- and Get and List never write. *)
Theorem list_returns_collection drv id c :
  (∃ docs, getAll Up c = (Responded 200 (JDocs docs), c)
           ∧ NoDup docs
           ∧ length docs = size c
           ∧ ∀ d, d ∈ docs ↔ c !! _id d = Some (fields d))
  ∧ getAll Up ∅ = (Responded 200 (JDocs []), ∅)
  ∧ (getAll drv c).2 = c
  ∧ (get notFound invalidId drv id c).2 = c.
Proof.
  split; [|split; [|split]].
  - eexists. split; [reflexivity|]. split; [|split].
    + apply NoDup_fmap_2; [|apply NoDup_map_to_list].
      intros [k1 v1] [k2 v2] H. injection H as -> ->. reflexivity.
    + rewrite length_fmap. by rewrite length_map_to_list.
    + apply find_docs.
  - unfold getAll, find. by rewrite map_to_list_empty.
  - unfold getAll. by destruct (find drv c).
  - unfold get. by destruct (findById drv id c) as [[d|]|].
Qed.

(** X3.  A document that Create has answered 201 with is what a Get of its
    identifier answers next. *)
Theorem create_then_get b c doc c' id :
  post modelName schema Up b c = (Responded 201 (JDoc doc), c') →
  castObjectId id = Some (_id doc) →
  get notFound invalidId Up id c' = (Responded 200 (JDoc doc), c').
Proof.
  intros Hpost Hid.
  apply post_Created in Hpost as (_ & _ & _ & _ & _ & ->).
  unfold get, findById. rewrite Hid, lookup_insert_eq. by destruct doc.
Qed.

(** X4.  A Create that answers 201 adds one document under an identifier
    that was free and leaves every other document as it was: the collection
    grows by one, and List then answers the earlier documents and the new
    one. *)
Theorem create_extends_collection b c doc c' :
  post modelName schema Up b c = (Responded 201 (JDoc doc), c') →
  c !! _id doc = None
  ∧ (∀ j, j ≠ _id doc → c' !! j = c !! j)
  ∧ size c' = S (size c)
  ∧ ∃ before after,
      getAll Up c = (Responded 200 (JDocs before), c)
      ∧ getAll Up c' = (Responded 200 (JDocs after), c')
      ∧ after ≡ₚ doc :: before.
Proof.
  intros Hpost.
  apply post_Created in Hpost as (_ & _ & _ & _ & Hnew & ->).
  split; [exact Hnew|]. split; [|split].
  - intros j Hj. by apply lookup_insert_ne.
  - by apply map_size_insert_None.
  - eexists _, _. split; [reflexivity|]. split; [reflexivity|].
    rewrite (map_to_list_insert c _ _ Hnew). rewrite fmap_cons.
    by destruct doc.
Qed.

(** X5.  A document that Update has answered 200 with is what a Get of the
    same identifier answers next; the update has touched no other document
    and the collection keeps its size. *)
Theorem update_then_get id b c doc c' :
  put schema notFound Up id b c = (Responded 200 (JDoc doc), c') →
  get notFound invalidId Up id c' = (Responded 200 (JDoc doc), c')
  ∧ (∀ j, j ≠ _id doc → c' !! j = c !! j)
  ∧ size c' = size c.
Proof.
  intros Hput.
  apply put_Updated in Hput as (_ & _ & Hid & (f & Hf & _) & ->).
  split; [|split].
  - unfold get, findById. rewrite Hid, lookup_insert_eq. by destruct doc.
  - intros j Hj. by apply lookup_insert_ne.
  - apply map_size_insert_Some. rewrite Hf. by eexists.
Qed.

(** X6.  A malformed identifier: Update answers 400 with the message of the
    cast error, Delete answers 400 with the fixed message; nothing is
    written. *)
Theorem malformed_identifier id b c :
  castObjectId id = None →
  put schema notFound Up id b c
  = (Responded 400 (JError (message (CastError id))), c)
  ∧ delete_ notFound invalidId Up id c
    = (Responded 400 (JError invalidId), c).
Proof.
  intros Hid. unfold put, findByIdAndUpdate, delete_, findByIdAndDelete.
  by rewrite Hid.
Qed.

(** X7.  A well-formed identifier no document is stored under: Delete
    answers 404; Update answers 404 when the fields it supplies pass their
    validators and 400 when they do not; nothing is written. *)
Theorem absent_identifier id i b c :
  castObjectId id = Some i → c !! i = None →
  delete_ notFound invalidId Up id c = (Responded 404 (JError notFound), c)
  ∧ (validateUpdate schema (strict schema b) = [] →
     put schema notFound Up id b c = (Responded 404 (JError notFound), c))
  ∧ (validateUpdate schema (strict schema b) ≠ [] →
     ∃ msg, put schema notFound Up id b c = (Responded 400 (JError msg), c)).
Proof.
  intros Hid Hi. split; [|split].
  - unfold delete_, findByIdAndDelete. rewrite Hid, Hi.
    cbn [fmap option_fmap option_map]. by rewrite delete_id.
  - intros Hval. unfold put, findByIdAndUpdate. by rewrite Hid, Hval, Hi.
  - intros Hval. unfold put, findByIdAndUpdate. rewrite Hid.
    destruct (validateUpdate schema (strict schema b)); [done|eauto].
Qed.

End RouterFacts.

(** ** The sample requests *)

Lemma john_created :
  post Users.modelName userSchema Up john ∅
  = (Responded 201 (JDoc johnDoc), <[_id johnDoc := fields johnDoc]> ∅).
Proof. exact (users_post_accepts ∅ john john_fieldRules). Defined.

Lemma johnId_cast : castObjectId johnId = Some (_id johnDoc).
Proof. vm_compute. reflexivity. Defined.

Lemma john_renamed :
  put userSchema Users.notFound Up johnId rename johnStore
  = (Responded 200
       (JDoc {| _id := 0%N; fields := strict userSchema rename ∪ john |}),
     <[0%N := strict userSchema rename ∪ john]> johnStore).
Proof.
  apply put_accepted; [reflexivity | exact johnStore_lookup |].
  apply username_update_accepted. simpl. lia.
Defined.

Lemma johnStore_other : johnStore !! 1%N = None.
Proof. vm_compute. reflexivity. Defined.

Lemma create_then_get_witness :
  Users.get Up johnId (<[_id johnDoc := fields johnDoc]> ∅)
  = (Responded 200 (JDoc johnDoc), <[_id johnDoc := fields johnDoc]> ∅).
Proof.
  exact (create_then_get Users.modelName userSchema Users.notFound
           Users.invalidId john ∅ johnDoc (<[_id johnDoc := fields johnDoc]> ∅)
           johnId john_created johnId_cast).
Defined.

Lemma create_extends_collection_witness :
  (∅ : Collection) !! _id johnDoc = None
  ∧ (∀ j, j ≠ _id johnDoc →
          (<[_id johnDoc := fields johnDoc]> ∅ : Collection) !! j
          = (∅ : Collection) !! j)
  ∧ size (<[_id johnDoc := fields johnDoc]> ∅ : Collection)
    = S (size (∅ : Collection))
  ∧ ∃ before after,
      getAll Up ∅ = (Responded 200 (JDocs before), ∅)
      ∧ getAll Up (<[_id johnDoc := fields johnDoc]> ∅)
        = (Responded 200 (JDocs after), <[_id johnDoc := fields johnDoc]> ∅)
      ∧ after ≡ₚ johnDoc :: before.
Proof.
  exact (create_extends_collection Users.modelName userSchema john ∅ johnDoc
           (<[_id johnDoc := fields johnDoc]> ∅) john_created).
Defined.

Lemma update_then_get_witness :
  Users.get Up johnId (<[0%N := strict userSchema rename ∪ john]> johnStore)
  = (Responded 200
       (JDoc {| _id := 0%N; fields := strict userSchema rename ∪ john |}),
     <[0%N := strict userSchema rename ∪ john]> johnStore)
  ∧ (∀ j, j ≠ 0%N →
          <[0%N := strict userSchema rename ∪ john]> johnStore !! j
          = johnStore !! j)
  ∧ size (<[0%N := strict userSchema rename ∪ john]> johnStore)
    = size johnStore.
Proof.
  exact (update_then_get userSchema Users.notFound Users.invalidId johnId
           rename johnStore
           {| _id := 0%N; fields := strict userSchema rename ∪ john |}
           (<[0%N := strict userSchema rename ∪ john]> johnStore)
           john_renamed).
Defined.

Lemma malformed_identifier_witness :
  Users.put Up badId rename johnStore
  = (Responded 400 (JError (message (CastError badId))), johnStore)
  ∧ Users.delete_ Up badId johnStore
    = (Responded 400 (JError Users.invalidId), johnStore).
Proof.
  exact (malformed_identifier userSchema Users.notFound Users.invalidId
           badId rename johnStore eq_refl).
Defined.

Lemma absent_identifier_witness :
  Users.delete_ Up otherId johnStore
  = (Responded 404 (JError Users.notFound), johnStore)
  ∧ (validateUpdate userSchema (strict userSchema rename) = [] →
     Users.put Up otherId rename johnStore
     = (Responded 404 (JError Users.notFound), johnStore))
  ∧ (validateUpdate userSchema (strict userSchema rename) ≠ [] →
     ∃ msg, Users.put Up otherId rename johnStore
            = (Responded 400 (JError msg), johnStore)).
Proof.
  exact (absent_identifier userSchema Users.notFound Users.invalidId
           otherId 1%N rename johnStore eq_refl johnStore_other).
Defined.

(** * What the collections hold *)

(** The fields of a stored document are declared by the schema. *)
Lemma reachable_declared modelName schema notFound invalidId
    (c : Collection) :
  reachable modelName schema notFound invalidId c →
  ∀ i (f : Fields) k, c !! i = Some f → is_Some (f !! k) → k ∈ paths schema.
Proof.
  induction 1 as [|drv req c Hc IH]; intros i f k Hi Hk.
  - by rewrite lookup_empty in Hi.
  - destruct req as [b| |id|id b|id]; cbn [handle] in Hi.
    + unfold post in Hi.
      destruct (save modelName schema drv (new schema b c) c) as [c1|err]
        eqn:Hs; cbn [snd] in Hi; [|by apply (IH i f k)].
      apply save_Fulfilled in Hs as (_ & _ & _ & _ & ->).
      rewrite lookup_insert in Hi. case_decide; [|by apply (IH i f k)].
      injection Hi as <-. cbn [fields] in Hk.
      rewrite strict_lookup in Hk. case_decide; [assumption|].
      by destruct Hk.
    + unfold getAll in Hi. destruct (find drv c); by apply (IH i f k).
    + unfold get in Hi.
      destruct (findById drv id c) as [[d|]|]; by apply (IH i f k).
    + unfold put in Hi.
      destruct (findByIdAndUpdate schema drv id b c) as [[r c1]|err] eqn:Hs;
        [|by apply (IH i f k)].
      apply findByIdAndUpdate_Fulfilled in Hs
        as (j & _ & _ & _ & [(_ & -> & ->)|(g & Hg & _ & -> & ->)]);
        cbn [snd] in Hi; [by apply (IH i f k)|].
      rewrite lookup_insert in Hi. case_decide; [|by apply (IH i f k)].
      injection Hi as <-.
      apply lookup_union_is_Some in Hk as [Hk|Hk]; [|by apply (IH j g k)].
      rewrite strict_lookup in Hk. case_decide; [assumption|].
      by destruct Hk.
    + unfold delete_, findByIdAndDelete in Hi.
      destruct (castObjectId id) as [j|]; [|by apply (IH i f k)].
      destruct drv; [|by apply (IH i f k)].
      assert (delete j c !! i = Some f) as Hd.
      { by destruct (c !! j). }
      apply lookup_delete_Some in Hd as [_ Hd]. by apply (IH i f k).
Qed.

(** X8.  Every document the users router has stored consists of exactly a
    username of length 3 to 50, an email that matches the pattern and a
    password of length at least 6: no field is missing, none is invalid and
    no undeclared member of a body has been kept. *)
Theorem stored_users_wellformed (c : Collection) (i : ObjectId) (f : Fields) :
  Users.reachable c → c !! i = Some f →
  ∃ u e p,
    f = <["username" := u]> (<["email" := e]> (<["password" := p]> ∅))
    ∧ (3 ≤ String.length u)%nat ∧ (String.length u ≤ 50)%nat
    ∧ RegExp.test emailPattern e = true
    ∧ (6 ≤ String.length p)%nat.
Proof.
  intros Hreach Hi.
  destruct (reachable_invariants _ _ _ _ _ Hreach) as [Hv _].
  pose proof (λ k, reachable_declared _ _ _ _ _ Hreach i f k Hi) as Hdecl.
  apply Hv, user_valid_iff in Hi
    as ((u & Hu & Hu1 & Hu2) & (e & He & Hre) & (p & Hp & Hp1)).
  exists u, e, p. split; [|auto].
  apply map_eq. intros k. rewrite !lookup_insert, lookup_empty.
  repeat case_decide; subst; try assumption.
  destruct (f !! k) as [v|] eqn:Hk; [|reflexivity].
  exfalso. assert (k ∈ paths userSchema) as Hin.
  { apply Hdecl. rewrite Hk. by eexists. }
  unfold paths, userSchema in Hin. cbn [fmap list_fmap fst] in Hin.
  apply elem_of_cons in Hin as [->|Hin]; [congruence|].
  apply elem_of_cons in Hin as [->|Hin]; [congruence|].
  apply elem_of_cons in Hin as [->|Hin]; [congruence|].
  by apply elem_of_nil in Hin.
Qed.

Lemma stored_users_wellformed_witness :
  ∃ u e p,
    john = <["username" := u]> (<["email" := e]> (<["password" := p]> ∅))
    ∧ (3 ≤ String.length u)%nat ∧ (String.length u ≤ 50)%nat
    ∧ RegExp.test emailPattern e = true
    ∧ (6 ≤ String.length p)%nat.
Proof.
  exact (stored_users_wellformed johnStore 0%N john johnStore_reachable
           johnStore_lookup).
Defined.

(** X9.  An Update that sets the email of one user to the email of another
    is answered 400 and writes nothing. *)
Theorem update_email_conflict (c : Collection) (id : string) (i j : ObjectId)
    (f g b : Fields) (e : string) :
  castObjectId id = Some i → c !! i = Some f →
  c !! j = Some g → g !! "email" = Some e → f !! "email" ≠ Some e →
  b !! "email" = Some e →
  ∃ msg, Users.put Up id b c = (Responded 400 (JError msg), c).
Proof.
  intros Hid Hi Hj Hg Hf Hb.
  apply put_refused with (i := i) (f := f); [assumption..|].
  intros [_ Hkeys].
  assert ((strict userSchema b ∪ f) !! "email" = Some e) as Hm.
  { apply lookup_union_Some_l. destruct (strict_user b) as (_ & -> & _).
    exact Hb. }
  destruct (Hkeys "email") as [Heq|Hk].
  - rewrite user_uniquePaths. apply list_elem_of_here.
  - rewrite Hm in Heq. by apply Hf.
  - rewrite Hm in Hk. rewrite keyTaken_false in Hk. by apply (Hk j g).
Qed.

Lemma twoUsers_john : twoUsers !! 0%N = Some john.
Proof. vm_compute. reflexivity. Defined.

Lemma twoUsers_jane : twoUsers !! 1%N = Some jane.
Proof. vm_compute. reflexivity. Defined.

Lemma john_not_jane : john !! "email" ≠ Some "jane@example.com".
Proof. vm_compute. discriminate. Defined.

Lemma update_email_conflict_witness :
  ∃ msg, Users.put Up johnId {[ "email" := "jane@example.com" ]} twoUsers
         = (Responded 400 (JError msg), twoUsers).
Proof.
  exact (update_email_conflict twoUsers johnId 0%N 1%N john jane
           {[ "email" := "jane@example.com" ]} "jane@example.com"
           eq_refl twoUsers_john twoUsers_jane eq_refl john_not_jane eq_refl).
Defined.

(** * The groups router *)

Lemma group_valid_iff (f : Fields) :
  validateDocument groupchema f = [] ↔ groupRule f.
Proof.
  rewrite validateDocument_nil. unfold groupchema, groupRule.
  rewrite Forall_cons, Forall_nil.
  unfold doValidate, validateString, checkRequired. cbn [fst snd required
    minlength maxlength match_].
  split.
  - intros [Hg _]. destruct (f !! "groupname") as [g|]; [|done]. exists g.
    revert Hg. rule_cases.
  - intros (g & -> & Hg1 & Hg2). split; [|done]. rule_cases.
Qed.

Lemma strict_group (b : Fields) :
  strict groupchema b !! "groupname" = b !! "groupname".
Proof.
  eapply strict_lookup_declared. unfold groupchema. apply list_elem_of_here.
Qed.

(** X10.  Create on the groups router depends on the body alone: a groupname
    of length 3 to 50 is stored and answered 201, whatever the collection
    holds -- also a group of the same name; any other body is answered 400
    and nothing is stored. *)
Theorem groups_create (c : Collection) (b : Fields) :
  (groupRule b →
     Groups.post Up b c
     = (Responded 201 (JDoc (new groupchema b c)),
        <[newObjectId c := strict groupchema b]> c)
     ∧ c !! newObjectId c = None
     ∧ strict groupchema b !! "groupname" = b !! "groupname")
  ∧ (¬ groupRule b →
     ∃ msg, Groups.post Up b c = (Responded 400 (JError msg), c)).
Proof.
  unfold Groups.post, post, save, new. cbn [_id fields].
  rewrite newObjectId_fresh.
  change (uniquePaths groupchema) with (@nil string). cbn [List.find].
  split.
  - intros Hrule.
    assert (validateDocument groupchema (strict groupchema b) = []) as ->.
    { apply group_valid_iff. unfold groupRule. by rewrite strict_group. }
    split; [reflexivity|]. split; [reflexivity | apply strict_group].
  - intros Hnot.
    destruct (validateDocument groupchema (strict groupchema b))
      as [|err errs] eqn:Hv; [|eauto].
    exfalso. apply Hnot. apply group_valid_iff in Hv.
    unfold groupRule in *. by rewrite strict_group in Hv.
Qed.

Lemma admins_groupRule : groupRule admins.
Proof. exists "admins". split; [reflexivity | simpl; lia]. Defined.

Lemma groups_create_witness :
  Groups.post Up admins ∅
  = (Responded 201 (JDoc (new groupchema admins ∅)),
     <[newObjectId ∅ := strict groupchema admins]> ∅)
  ∧ (∅ : Collection) !! newObjectId ∅ = None
  ∧ strict groupchema admins !! "groupname" = admins !! "groupname".
Proof. exact (proj1 (groups_create ∅ admins) admins_groupRule). Defined.

(** X11.  Every document the groups router has stored consists of exactly
    a groupname of length 3 to 50. *)
Theorem stored_groups_wellformed (c : Collection) (i : ObjectId) (f : Fields) :
  groupsReachable c → c !! i = Some f →
  ∃ g, f = {[ "groupname" := g ]}
       ∧ (3 ≤ String.length g)%nat ∧ (String.length g ≤ 50)%nat.
Proof.
  intros Hreach Hi.
  destruct (reachable_invariants _ _ _ _ _ Hreach) as [Hv _].
  pose proof (λ k, reachable_declared _ _ _ _ _ Hreach i f k Hi) as Hdecl.
  apply Hv, group_valid_iff in Hi as (g & Hg & Hg1 & Hg2).
  exists g. split; [|auto].
  apply map_eq. intros k. rewrite lookup_singleton.
  case_decide; subst; [assumption|].
  destruct (f !! k) as [v|] eqn:Hk; [|reflexivity].
  exfalso. assert (k ∈ paths groupchema) as Hin.
  { apply Hdecl. rewrite Hk. by eexists. }
  unfold paths, groupchema in Hin. cbn [fmap list_fmap fst] in Hin.
  apply list_elem_of_singleton in Hin. congruence.
Qed.

(** * The server *)




(** * The email pattern *)

Section RegExpFacts.

Import RegExp.

Lemma append_nil_l (t : string) : EmptyString +:+ t = t.
Proof. reflexivity. Qed.

Lemma append_cons a (s t : string) : String a s +:+ t = String a (s +:+ t).
Proof. reflexivity. Qed.

Lemma append_eq_nil (s1 s2 : string) :
  s1 +:+ s2 = EmptyString → s1 = EmptyString ∧ s2 = EmptyString.
Proof.
  destruct s1; [rewrite append_nil_l; by intros -> |].
  rewrite append_cons. discriminate.
Qed.

Lemma append_eq_cons (s1 s2 : string) c s :
  s1 +:+ s2 = String c s →
  (s1 = EmptyString ∧ s2 = String c s)
  ∨ ∃ s1', s1 = String c s1' ∧ s = s1' +:+ s2.
Proof.
  destruct s1 as [|a s1]; [rewrite append_nil_l; by left|].
  rewrite append_cons. intros [= -> <-]. right. by exists s1.
Qed.

Lemma nullable_lang r : nullable r = true ↔ lang r EmptyString.
Proof.
  split.
  - induction r; simpl; intros H; try discriminate H.
    + constructor.
    + apply andb_true_iff in H as [H1 H2].
      apply (lang_cat r1 r2 EmptyString EmptyString); auto.
    + apply orb_true_iff in H as [H|H];
        [apply lang_alt_l | apply lang_alt_r]; auto.
    + constructor.
  - remember EmptyString as w eqn:Hw. induction 1; simpl; try reflexivity.
    + discriminate Hw.
    + apply append_eq_nil in Hw as [-> ->].
      rewrite IHlang1, IHlang2; reflexivity.
    + by rewrite IHlang.
    + rewrite IHlang by assumption. apply orb_true_r.
Qed.

Lemma lang_Void s : ¬ lang Void s.
Proof. inversion 1. Qed.

Lemma lang_cat_smart r1 r2 s : lang (cat r1 r2) s ↔ lang (Cat r1 r2) s.
Proof.
  unfold cat. destruct (is_void r1) eqn:H1; simpl.
  - destruct r1; try discriminate H1. split; [by intros ?%lang_Void|].
    inversion 1 as [| |? ? s1 s2 Ha Hb| | | |]; subst.
    by apply lang_Void in Ha.
  - destruct (is_void r2) eqn:H2; [|reflexivity].
    destruct r2; try discriminate H2. split; [by intros ?%lang_Void|].
    inversion 1 as [| |? ? s1 s2 Ha Hb| | | |]; subst.
    by apply lang_Void in Hb.
Qed.

Lemma lang_alt_smart r1 r2 s : lang (alt r1 r2) s ↔ lang (Alt r1 r2) s.
Proof.
  unfold alt. destruct (is_void r1) eqn:H1.
  - destruct r1; try discriminate H1. split; [by apply lang_alt_r|].
    inversion 1 as [| | |? ? ? Ha|? ? ? Hb| |]; subst;
      [by apply lang_Void in Ha | assumption].
  - destruct (is_void r2) eqn:H2; [|reflexivity].
    destruct r2; try discriminate H2. split; [by apply lang_alt_l|].
    inversion 1 as [| | |? ? ? Ha|? ? ? Hb| |]; subst;
      [assumption | by apply lang_Void in Hb].
Qed.

Lemma deriv_sound c r s : lang (deriv c r) s → lang r (String c s).
Proof.
  revert s. induction r as [| |p|r1 IH1 r2 IH2|r1 IH1 r2 IH2|r1 IH1];
    intros s; simpl.
  - by intros ?%lang_Void.
  - by intros ?%lang_Void.
  - destruct (p c) eqn:Hp; [|by intros ?%lang_Void].
    inversion 1; subst. by constructor.
  - destruct (nullable r1) eqn:Hn.
    + intros H. apply lang_alt_smart in H.
      inversion H as [| | |? ? ? Ha|? ? ? Hb| |]; subst.
      * apply lang_cat_smart in Ha.
        inversion Ha as [| |? ? s1 s2 H1 H2| | | |]; subst.
        apply (lang_cat r1 r2 (String c s1) s2); auto.
      * apply (lang_cat r1 r2 EmptyString (String c s));
          [by apply nullable_lang | auto].
    + intros H. apply lang_cat_smart in H.
      inversion H as [| |? ? s1 s2 H1 H2| | | |]; subst.
      apply (lang_cat r1 r2 (String c s1) s2); auto.
  - intros H. apply lang_alt_smart in H.
    inversion H; subst; [apply lang_alt_l | apply lang_alt_r]; auto.
  - intros H. apply lang_cat_smart in H.
    inversion H as [| |? ? s1 s2 H1 H2| | | |]; subst.
    apply (lang_star_cons r1 (String c s1) s2); auto.
Qed.

Lemma deriv_complete c r w :
  lang r w → ∀ s, w = String c s → lang (deriv c r) s.
Proof.
  induction 1 as [|p a Hp|r1 r2 s1 s2 H1 IH1 H2 IH2|r1 r2 s0 H IH|r1 r2 s0 H IH
                  |r|r s1 s2 H1 IH1 H2 IH2]; intros s Hw; simpl.
  - discriminate Hw.
  - injection Hw as -> <-. rewrite Hp. constructor.
  - apply append_eq_cons in Hw as [[-> ->]|(s1' & -> & ->)].
    + apply nullable_lang in H1 as ->. apply lang_alt_smart, lang_alt_r. auto.
    + assert (lang (cat (deriv c r1) r2) (s1' +:+ s2)) as Hc.
      { apply lang_cat_smart. constructor; auto. }
      destruct (nullable r1); [|assumption].
      by apply lang_alt_smart, lang_alt_l.
  - apply lang_alt_smart, lang_alt_l. auto.
  - apply lang_alt_smart, lang_alt_r. auto.
  - discriminate Hw.
  - apply append_eq_cons in Hw as [[-> ->]|(s1' & -> & ->)].
    + by apply IH2.
    + apply lang_cat_smart. constructor; auto.
Qed.

(** The matcher decides the language. *)
Lemma accepts_lang r s : accepts r s = true ↔ lang r s.
Proof.
  revert r. induction s as [|c s IH]; intros r; simpl.
  - apply nullable_lang.
  - rewrite IH. split; [apply deriv_sound|].
    intros H. by apply (deriv_complete c r _ H).
Qed.

Lemma lang_any s : lang (Star Any) s.
Proof.
  induction s as [|c s IH]; [constructor|].
  apply (lang_star_cons Any (String c EmptyString) s); [|assumption].
  by constructor.
Qed.

(** [test] looks for a word of the language anywhere in the string. *)
Lemma test_lang r s :
  test r s = true ↔ ∃ pre mid post, s = pre +:+ mid +:+ post ∧ lang r mid.
Proof.
  unfold test. rewrite accepts_lang. split.
  - inversion 1 as [| |? ? pre rest Hpre Hrest| | | |]; subst.
    inversion Hrest as [| |? ? mid post Hmid Hpost| | | |]; subst.
    by exists pre, mid, post.
  - intros (pre & mid & post & -> & Hmid).
    constructor; [apply lang_any|]. constructor; [assumption | apply lang_any].
Qed.

Lemma lang_class_inv p s :
  lang (Class p) s ↔ ∃ c, s = String c EmptyString ∧ p c = true.
Proof.
  split; [inversion 1; eauto|]. intros (c & -> & Hp). by constructor.
Qed.

Lemma lang_star_class p s : lang (Star (Class p)) s ↔ allChars p s = true.
Proof.
  split.
  - remember (Star (Class p)) as r eqn:Hr.
    induction 1 as [| | | | |r'|r' s1 s2 H1 _ H2 IH2]; try discriminate Hr.
    + reflexivity.
    + injection Hr as ->. apply lang_class_inv in H1 as (c & -> & Hp).
      rewrite append_cons, append_nil_l. simpl. rewrite Hp. by apply IH2.
  - induction s as [|c s IH]; simpl; [constructor|].
    intros [Hp Hs]%andb_true_iff.
    apply (lang_star_cons (Class p) (String c EmptyString) s); auto.
    by constructor.
Qed.

Lemma lang_nonblank s : lang (Plus NonSpace) s ↔ nonblank s = true.
Proof.
  unfold Plus, NonSpace, nonblank. split.
  - inversion 1 as [| |? ? s1 s2 H1 H2| | | |]; subst.
    apply lang_class_inv in H1 as (c & -> & Hc).
    apply lang_star_class in H2. rewrite append_cons, append_nil_l.
    simpl. by rewrite Hc, H2.
  - destruct s as [|c s]; [discriminate|]. simpl.
    intros [Hc Hs]%andb_true_iff.
    apply (lang_cat _ _ (String c EmptyString) s); [by constructor|].
    by apply lang_star_class.
Qed.

Lemma lang_chr a s : lang (Chr a) s ↔ s = String a EmptyString.
Proof.
  unfold Chr. rewrite lang_class_inv. split.
  - intros (c & -> & Hc). apply Ascii.eqb_eq in Hc. by subst.
  - intros ->. exists a. split; [reflexivity | apply Ascii.eqb_refl].
Qed.

End RegExpFacts.

(** X13.  The email rule accepts a string exactly when some part of it has
    the shape [a@b.c], with [a], [b] and [c] non-empty and free of white
    space; what stands before and after that part is not looked at. *)
Theorem email_pattern_accepts (s : string) :
  RegExp.test emailPattern s = true
  ↔ ∃ pre a b c post,
      s = pre +:+ (a +:+ "@" +:+ b +:+ "." +:+ c) +:+ post
      ∧ nonblank a = true ∧ nonblank b = true ∧ nonblank c = true.
Proof.
  rewrite test_lang. unfold emailPattern. split.
  - intros (pre & mid & post & -> & Hmid).
    inversion Hmid as [| |? ? a r1 Ha Hr1| | | |]; subst.
    inversion Hr1 as [| |? ? at_ r2 Hat Hr2| | | |]; subst.
    inversion Hr2 as [| |? ? b r3 Hb Hr3| | | |]; subst.
    inversion Hr3 as [| |? ? dot c Hdot Hc| | | |]; subst.
    apply lang_chr in Hat as ->. apply lang_chr in Hdot as ->.
    exists pre, a, b, c, post.
    split; [reflexivity|]. by rewrite <- !lang_nonblank.
  - intros (pre & a & b & c & post & -> & Ha & Hb & Hc).
    exists pre, (a +:+ "@" +:+ b +:+ "." +:+ c), post.
    split; [reflexivity|].
    constructor; [by apply lang_nonblank|].
    constructor; [by apply lang_chr|].
    constructor; [by apply lang_nonblank|].
    constructor; [by apply lang_chr | by apply lang_nonblank].
Qed.

(** * Composing requests *)

Section Composition.

Variable schema : Schema.
Variables notFound invalidId : string.

Implicit Types (c : Collection) (f b : Fields).

(** X14.  Update is idempotent: sending again an Update that was answered
    200 is answered 200 with the same document and changes nothing. *)
Theorem update_idempotent id b c doc c' :
  put schema notFound Up id b c = (Responded 200 (JDoc doc), c') →
  put schema notFound Up id b c' = (Responded 200 (JDoc doc), c').
Proof.
  intros Hput. unfold put in Hput.
  destruct (findByIdAndUpdate schema Up id b c) as [[[d|] c1]|err] eqn:Hs;
    [|discriminate..].
  injection Hput as -> ->.
  apply findByIdAndUpdate_Fulfilled in Hs
    as (i & Hid & _ & Hval & [(_ & Hr & _)|(f & Hi & _ & Hr & ->)]);
    [discriminate Hr|].
  injection Hr as ->.
  assert (strict schema b ∪ (strict schema b ∪ f) = strict schema b ∪ f)
    as Hidem.
  { by rewrite (assoc_L (∪)), (idemp_L (∪)). }
  rewrite (put_accepted schema notFound _ id i (strict schema b ∪ f) b Hid).
  - rewrite Hidem. by rewrite insert_insert_eq.
  - apply lookup_insert_eq.
  - split; [assumption|]. intros p _. left. by rewrite Hidem.
Qed.

(** X15.  Delete is not: after a Delete that was answered 200, a second
    Delete of the same identifier is answered 404 and changes nothing. *)
Theorem delete_twice id c body c' :
  delete_ notFound invalidId Up id c = (Responded 200 body, c') →
  delete_ notFound invalidId Up id c' = (Responded 404 (JError notFound), c').
Proof.
  unfold delete_, findByIdAndDelete.
  destruct (castObjectId id) as [i|]; [|discriminate].
  destruct (c !! i) as [f|]; cbn [fmap option_fmap option_map];
    [|discriminate].
  intros [= _ <-]. rewrite lookup_delete_eq.
  cbn [fmap option_fmap option_map]. by rewrite delete_delete_eq.
Qed.

End Composition.

Lemma update_idempotent_witness :
  put userSchema Users.notFound Up johnId rename
    (<[0%N := strict userSchema rename ∪ john]> johnStore)
  = (Responded 200
       (JDoc {| _id := 0%N; fields := strict userSchema rename ∪ john |}),
     <[0%N := strict userSchema rename ∪ john]> johnStore).
Proof.
  exact (update_idempotent userSchema Users.notFound johnId rename johnStore
           {| _id := 0%N; fields := strict userSchema rename ∪ john |}
           (<[0%N := strict userSchema rename ∪ john]> johnStore)
           john_renamed).
Defined.

Lemma john_deleted :
  delete_ Users.notFound Users.invalidId Up johnId johnStore
  = (Responded 200 (JMsg "Deleted successfully"), delete 0%N johnStore).
Proof.
  unfold delete_, findByIdAndDelete.
  assert (castObjectId johnId = Some 0%N) as -> by reflexivity.
  rewrite johnStore_lookup. reflexivity.
Defined.

Lemma delete_twice_witness :
  delete_ Users.notFound Users.invalidId Up johnId (delete 0%N johnStore)
  = (Responded 404 (JError Users.notFound), delete 0%N johnStore).
Proof.
  exact (delete_twice Users.notFound Users.invalidId johnId johnStore
           (JMsg "Deleted successfully") (delete 0%N johnStore) john_deleted).
Defined.

(** * The book API *)

Section BookFacts.

Import Book.

Context {A : Type}.

(** X16.  The error middleware: of its three tests the last one that holds
    decides.  A validation error is answered 400 with the validators'
    messages; otherwise a duplicate key is answered 400; otherwise a cast
    error is answered 404; any other error is answered with its own status,
    or 500 when it has none or zero, and with its own message, or
    ['Server Error'] when that is empty.  The status is never 0. *)
Theorem errorHandler_precedence (err : Error) :
  (name err = "ValidationError" →
     errorHandler (A := A) err = (400, ErrorBody (Arr (messages err))))
  ∧ (name err ≠ "ValidationError" → code err = Some 11000%N →
     errorHandler (A := A) err
     = (400, ErrorBody (Str "Duplicate field value entered")))
  ∧ (name err = "CastError" → code err ≠ Some 11000%N →
     errorHandler (A := A) err = (404, ErrorBody (Str "Resource not found")))
  ∧ (name err ≠ "ValidationError" → name err ≠ "CastError" →
     code err ≠ Some 11000%N →
     errorHandler (A := A) err
     = (statusOr (statusCode err) 500,
        ErrorBody (textOr (Str (message err)) "Server Error")))
  ∧ (errorHandler (A := A) err).1 ≠ 0.
Proof.
  unfold errorHandler, isNamed, isDuplicateKey.
  repeat split.
  - intros ->. rewrite (bool_decide_eq_true_2 _ eq_refl). reflexivity.
  - intros Hv Hc. rewrite Hc, (bool_decide_eq_true_2 _ eq_refl).
    by rewrite (bool_decide_eq_false_2 _ Hv).
  - intros Hn Hc. rewrite (bool_decide_eq_false_2 _ Hc).
    rewrite Hn, (bool_decide_eq_true_2 _ eq_refl).
    rewrite bool_decide_eq_false_2; [reflexivity | discriminate].
  - intros Hv Hn Hc.
    by rewrite (bool_decide_eq_false_2 _ Hv), (bool_decide_eq_false_2 _ Hn),
      (bool_decide_eq_false_2 _ Hc).
  - repeat case_bool_decide; cbn [fst replyStatus statusOr]; try discriminate.
    destruct (statusCode err) as [[|n]|]; discriminate.
Qed.

(** X17.  A malformed identifier is answered as a missing book: when the
    model call throws a cast error, [getBookById], [updateBook] and
    [deleteBook] send what they send when it finds nothing, 404 with
    ['Book not found']. *)
Theorem malformed_id_as_missing (err : Error) :
  name err = "CastError" →
  getBookById (A := A) (Threw err) = getBookById (Resolved None)
  ∧ updateBook (A := A) (Threw err) = updateBook (Resolved None)
  ∧ deleteBook (A := A) (Threw err) = deleteBook (Resolved None)
  ∧ getBookById (A := A) (Resolved None) = (404, Failed "Book not found" None).
Proof.
  intros Hn. unfold getBookById, updateBook, deleteBook, isNamed.
  rewrite Hn, (bool_decide_eq_true_2 _ eq_refl).
  rewrite bool_decide_eq_false_2; [done | discriminate].
Qed.





End BookFacts.

Lemma malformed_id_as_missing_witness :
  Book.getBookById (A := string) (Book.Threw castError)
  = Book.getBookById (Book.Resolved None)
  ∧ Book.updateBook (A := string) (Book.Threw castError)
    = Book.updateBook (Book.Resolved None)
  ∧ Book.deleteBook (A := string) (Book.Threw castError)
    = Book.deleteBook (Book.Resolved None)
  ∧ Book.getBookById (A := string) (Book.Resolved None)
    = (404, Book.Failed "Book not found" None).
Proof. exact (malformed_id_as_missing (A := string) castError eq_refl). Defined.


Lemma adminsStore_reachable : groupsReachable adminsStore.
Proof.
  exact (reachable_handle Groups.modelName groupchema Groups.notFound
           Groups.invalidId Up (Create admins) ∅
           (reachable_empty _ _ _ _)).
Defined.

Lemma adminsStore_lookup : adminsStore !! 0%N = Some admins.
Proof. vm_compute. reflexivity. Defined.

Lemma stored_groups_wellformed_witness :
  ∃ g, admins = {[ "groupname" := g ]}
       ∧ (3 ≤ String.length g)%nat ∧ (String.length g ≤ 50)%nat.
Proof.
  exact (stored_groups_wellformed adminsStore 0%N admins adminsStore_reachable
           adminsStore_lookup).
Defined.

(** * The statuses of the routers *)

(** X20.  A router answers with 200, 201, 400 or 404 and nothing else --
    201 only to a Create, never 5xx, also when the storage layer fails --
    and the one request that can end without an answer is List while the
    storage layer fails. *)
Theorem router_statuses (modelName : string) (schema : Schema)
    (notFound invalidId : string) (drv : Driver) (req : Request)
    (c : Collection) :
  match (handle modelName schema notFound invalidId drv req c).1 with
  | Responded s _ =>
      (s = 200 ∨ s = 201 ∨ s = 400 ∨ s = 404)
      ∧ (s = 201 → ∃ b, req = Create b)
  | Unhandled _ => req = ReadAll ∧ ∃ reason, drv = Down reason
  end.
Proof.
  destruct req as [b| |id|id b|id]; cbn [handle].
  - unfold post. destruct (save _ _ _ _ _); cbn [fst]; split; eauto.
  - unfold getAll, find. destruct drv; cbn [fst].
    + split; [by left | discriminate].
    + split; [reflexivity | by eexists].
  - unfold get. destruct (findById drv id c) as [[d|]|]; cbn [fst];
      (split; [auto | discriminate]).
  - unfold put.
    destruct (findByIdAndUpdate schema drv id b c) as [[[d|] c1]|err];
      cbn [fst]; (split; [auto | discriminate]).
  - unfold delete_.
    destruct (findByIdAndDelete drv id c) as [[[d|] c1]|err];
      cbn [fst]; (split; [auto | discriminate]).
Qed.
